(** * nacli: resolution of a git-hosted salt state tree

    A shallow embedding of [nacli/git.py] and [nacli/statetree.py].

    - Python values decoded from YAML are the inductive [pyval]; a [dict] is
      its list of items in insertion order.  The fragment has [None], [int],
      [str], [list] and [dict]; a [str] is a sequence of one-byte characters,
      and what the model says of whitespace and of [repr] is what Python
      does for the characters below 128.
    - Exceptions are the inductive [exn]; a raising computation returns
      [inl e].
    - Effects (git subprocesses, temporary-directory cleanup, reading the
      manifest, [print]) are recorded in a trace of [event]s; what the outside
      world answers is read from a [world].
    - Objects that a function mutates are threaded explicitly: the function
      returns their contents after the call.  A decoded document is a tree
      ([Tree]) when it has no aliases; mappings shared through YAML anchors
      and aliases are the objects of a [Graph], which the validator changes
      in place.  Booleans, floats and dates are outside the fragment.
    - The YAML library is modelled up to the representation graph of a
      document (module [Yaml]); the git binary and the file system are the
      [world].
    - Logging calls are not modelled. *)

From Stdlib Require Import ZArith String Ascii List Bool Lia Permutation Sorted OrdersEx.
From Stdlib Require Import DecimalString DecimalPos DecimalZ.
From stdpp Require Import base option gmap strings.

Import ListNotations.
Set Warnings "-register-all".
Local Open Scope list_scope.
Local Open Scope string_scope.

(** ** Python strings *)

Module Str.

(** [sep.join(l)] on a list of [str] *)
Fixpoint join (sep : string) (l : list string) : string :=
  match l with
  | [] => ""
  | [x] => x
  | x :: rest => x ++ sep ++ join sep rest
  end.

Definition newline : ascii := "010"%char.

(** [s.replace('\n', '; ')] *)
Fixpoint replace_newline (s : string) : string :=
  match s with
  | EmptyString => EmptyString
  | String c rest =>
      if Ascii.eqb c newline then String ";" (String " " (replace_newline rest))
      else String c (replace_newline rest)
  end.

Definition in_chars (chars : string) (c : ascii) : bool :=
  existsb (Ascii.eqb c) (list_ascii_of_string chars).

(** [s.lstrip(chars)] *)
Fixpoint lstrip (chars : string) (s : string) : string :=
  match s with
  | EmptyString => EmptyString
  | String c rest => if in_chars chars c then lstrip chars rest else s
  end.

(** [s.rstrip(chars)] *)
Fixpoint rstrip (chars : string) (s : string) : string :=
  match s with
  | EmptyString => EmptyString
  | String c rest =>
      match rstrip chars rest with
      | EmptyString => if in_chars chars c then EmptyString else String c EmptyString
      | rest' => String c rest'
      end
  end.

(** [s.strip(chars)] *)
Definition strip (chars : string) (s : string) : string :=
  rstrip chars (lstrip chars s).

(** the characters [str.isspace] accepts below 128; [s.strip()] and the
    regular-expression class [\s] use the same set *)
Definition whitespace : string :=
  String "009" (String "010" (String "011" (String "012" (String "013"
  (String "028" (String "029" (String "030" (String "031" " ")))))))).

Definition is_space (c : ascii) : bool := in_chars whitespace c.

Definition upper (c : ascii) : ascii :=
  let n := nat_of_ascii c in
  if (97 <=? n)%nat && (n <=? 122)%nat then ascii_of_nat (n - 32) else c.

Definition lower (c : ascii) : ascii :=
  let n := nat_of_ascii c in
  if (65 <=? n)%nat && (n <=? 90)%nat then ascii_of_nat (n + 32) else c.

Fixpoint map (f : ascii -> ascii) (s : string) : string :=
  match s with
  | EmptyString => EmptyString
  | String c rest => String (f c) (map f rest)
  end.

(** [s.capitalize()] *)
Definition capitalize (s : string) : string :=
  match s with
  | EmptyString => EmptyString
  | String c rest => String (upper c) (map lower rest)
  end.

(** [s.split('\n')] *)
Fixpoint split_lines_aux (cur : string) (s : string) : list string :=
  match s with
  | EmptyString => [cur]
  | String c rest =>
      if Ascii.eqb c newline then cur :: split_lines_aux "" rest
      else split_lines_aux (cur ++ String c "") rest
  end.

Definition split_lines (s : string) : list string := split_lines_aux "" s.

(** [prefix] is a prefix of [s]: the rest of [s] *)
Fixpoint drop_prefix (prefix s : string) : option string :=
  match prefix, s with
  | EmptyString, _ => Some s
  | String a p, String b rest => if Ascii.eqb a b then drop_prefix p rest else None
  | String _ _, EmptyString => None
  end.

(** [str(n)] for an [int] *)
Definition of_Z (z : Z) : string := NilZero.string_of_int (Z.to_int z).

(** the inverse reading of a decimal numeral *)
Definition to_Z (s : string) : option Z :=
  match NilZero.int_of_string s with
  | Some d => Some (Z.of_int d)
  | None => None
  end.

Definition hex_digit (n : nat) : ascii :=
  if (n <? 10)%nat then ascii_of_nat (48 + n) else ascii_of_nat (87 + n).

End Str.

(** ** Python values *)

Inductive pyval : Type :=
| PNone
| PInt (z : Z)
| PStr (s : string)
| PList (l : list pyval)
| PDict (items : list (pyval * pyval)).

(** induction on values, with the hypothesis for the members of a list and
    for the keys and values of a mapping *)
Fixpoint pyval_induction (P : pyval -> Prop)
  (HNone : P PNone) (HInt : forall z, P (PInt z)) (HStr : forall s, P (PStr s))
  (HList : forall l, Forall P l -> P (PList l))
  (HDict : forall items, Forall (fun kx => P (fst kx) /\ P (snd kx)) items -> P (PDict items))
  (v : pyval) {struct v} : P v :=
  match v with
  | PNone => HNone
  | PInt z => HInt z
  | PStr s => HStr s
  | PList l =>
      HList l
        ((fix go (l : list pyval) : Forall P l :=
            match l with
            | [] => @List.Forall_nil _ P
            | x :: rest =>
                @List.Forall_cons _ P x rest (pyval_induction P HNone HInt HStr HList HDict x) (go rest)
            end) l)
  | PDict items =>
      HDict items
        ((fix go (items : list (pyval * pyval))
            : Forall (fun kx => P (fst kx) /\ P (snd kx)) items :=
            match items with
            | [] => @List.Forall_nil _ _
            | (k, x) :: rest =>
                @List.Forall_cons _ (fun kx => P (fst kx) /\ P (snd kx)) (k, x) rest
                  (conj (pyval_induction P HNone HInt HStr HList HDict k)
                     (pyval_induction P HNone HInt HStr HList HDict x))
                  (go rest)
            end) items)
  end.

Module Py.

Definition dquote : ascii := "034"%char.
Definition squote : ascii := "039"%char.
Definition backslash : ascii := "092"%char.

Definition contains (c : ascii) (s : string) : bool := Str.in_chars s c.

Definition repr_char (quote c : ascii) : string :=
  let n := nat_of_ascii c in
  if Ascii.eqb c quote || Ascii.eqb c backslash then String backslash (String c "")
  else if (n =? 9)%nat then String backslash "t"
  else if (n =? 10)%nat then String backslash "n"
  else if (n =? 13)%nat then String backslash "r"
  else if (n <? 32)%nat || (n =? 127)%nat then
    String backslash (String "x" (String (Str.hex_digit (n / 16))
                                    (String (Str.hex_digit (n mod 16)) "")))
  else String c "".

Fixpoint repr_chars (quote : ascii) (s : string) : string :=
  match s with
  | EmptyString => EmptyString
  | String c rest => repr_char quote c ++ repr_chars quote rest
  end.

(** [repr(s)] for a [str] *)
Definition repr_str (s : string) : string :=
  let quote := if contains squote s && negb (contains dquote s) then dquote else squote in
  String quote (repr_chars quote s ++ String quote "").

(** [repr(v)] *)
Fixpoint repr (v : pyval) : string :=
  match v with
  | PNone => "None"
  | PInt z => Str.of_Z z
  | PStr s => repr_str s
  | PList l => "[" ++ Str.join ", " (List.map repr l) ++ "]"
  | PDict items =>
      "{" ++ Str.join ", "
               (List.map (fun kv => match kv with
                                    | (k, x) => repr k ++ ": " ++ repr x
                                    end) items)
          ++ "}"
  end.

(** [str(v)], which is what [format] and [%s] insert *)
Definition str (v : pyval) : string :=
  match v with
  | PStr s => s
  | _ => repr v
  end.

(** [type(v).__name__] *)
Definition type_name (v : pyval) : string :=
  match v with
  | PNone => "NoneType"
  | PInt _ => "int"
  | PStr _ => "str"
  | PList _ => "list"
  | PDict _ => "dict"
  end.

Definition is_str (v : pyval) : bool :=
  match v with PStr _ => true | _ => false end.

Definition is_int (v : pyval) : bool :=
  match v with PInt _ => true | _ => false end.

(** [a == b] on the values that can be keys of a [dict] *)
Definition key_eqb (a b : pyval) : bool :=
  match a, b with
  | PNone, PNone => true
  | PInt x, PInt y => (x =? y)%Z
  | PStr x, PStr y => String.eqb x y
  | _, _ => false
  end.

(** [a < b] on keys of one type; keys of different types do not compare *)
Definition key_ltb (a b : pyval) : bool :=
  match a, b with
  | PInt x, PInt y => (x <? y)%Z
  | PStr x, PStr y => String.ltb x y
  | _, _ => false
  end.

(** [sorted(l)]: the stable sort, through [<] alone *)
Section Sorted.
Context {A : Type} (ltb : A -> A -> bool).

Fixpoint insert (x : A) (l : list A) : list A :=
  match l with
  | [] => [x]
  | y :: rest => if ltb y x then y :: insert x rest else x :: l
  end.

Definition sorted (l : list A) : list A := fold_right insert [] l.
End Sorted.

End Py.

(** ** dict, as the list of its items in insertion order *)

Module Dict.

Definition items_t : Type := list (pyval * pyval).

Definition keys (d : items_t) : list pyval := List.map fst d.

(** [d.get(k)] *)
Fixpoint get (k : pyval) (d : items_t) : option pyval :=
  match d with
  | [] => None
  | (k', x) :: rest => if Py.key_eqb k' k then Some x else get k rest
  end.

(** [k in d] *)
Definition contains (k : pyval) (d : items_t) : bool :=
  match get k d with Some _ => true | None => false end.

(** the items left by [del d[k]] *)
Fixpoint remove (k : pyval) (d : items_t) : items_t :=
  match d with
  | [] => []
  | (k', x) :: rest => if Py.key_eqb k' k then rest else (k', x) :: remove k rest
  end.

(** [d[k] = x]: an existing key keeps its place (and its key object) *)
Fixpoint setitem (k x : pyval) (d : items_t) : items_t :=
  match d with
  | [] => [(k, x)]
  | (k', x') :: rest =>
      if Py.key_eqb k' k then (k', x) :: rest else (k', x') :: setitem k x rest
  end.

(** [d.update(other)] *)
Definition update (d other : items_t) : items_t :=
  fold_left (fun acc kv => setitem (fst kv) (snd kv) acc) other d.

(** [d.popitem()]: the item inserted last, and the items left *)
Definition popitem (d : items_t) : option ((pyval * pyval) * items_t) :=
  match List.rev d with
  | [] => None
  | kv :: rest => Some (kv, List.rev rest)
  end.

End Dict.

(** ** Exceptions, effects and the world *)

Inductive exn : Type :=
| GitError (msg : string)
| StateParseError (msg : string)
| YAMLError (msg : string)
| FileNotFoundError
| TypeError
| AttributeError
| KeyError
| ValueError
| UnicodeDecodeError.

(** the class of an exception, which is what an [except] clause tests *)
Inductive exn_class : Type :=
| cGitError | cStateParseError | cYAMLError | cFileNotFoundError
| cTypeError | cAttributeError | cKeyError | cValueError | cUnicodeDecodeError.

Definition class_of (e : exn) : exn_class :=
  match e with
  | GitError _ => cGitError
  | StateParseError _ => cStateParseError
  | YAMLError _ => cYAMLError
  | FileNotFoundError => cFileNotFoundError
  | TypeError => cTypeError
  | AttributeError => cAttributeError
  | KeyError => cKeyError
  | ValueError => cValueError
  | UnicodeDecodeError => cUnicodeDecodeError
  end.

(** what the program does to the outside *)
Inductive event : Type :=
| EvGit (repo : string) (cmds : list string)  (* a git subprocess, in a working copy of [repo] *)
| EvCleanup (repo : string)                   (* the temporary directory is removed *)
| EvOpen (repo : string)                      (* states.yaml of the working copy is opened *)
| EvPrint (v : pyval).                        (* print to standard output *)

(** a value of a document that uses aliases *)
Inductive slot : Type :=
| Own (v : pyval)   (* an object of its own: no alias refers to it or to a part of it *)
| Ref (l : nat).    (* the mapping object number [l] of the document *)

(** a mapping object of such a document: its items in insertion order *)
Definition object : Type := list (pyval * slot).

(** what [yaml.safe_load] returns: a value none of whose objects is shared,
    or a sequence of entries over mapping objects that anchors and aliases
    let several places refer to *)
Inductive document : Type :=
| Tree (v : pyval)
| Graph (objects : list object) (entries : list slot).

Coercion Tree : pyval >-> document.

(** the manifest of the branch that is checked out: there is no such file,
    the decoder raises [yaml.YAMLError], reading or decoding raises another
    exception (bytes that are not UTF-8, a date that does not exist), or
    the file decodes *)
Inductive manifest_file : Type :=
| Absent
| Undecodable (msg : string)
| Raises (e : exn)
| Decoded (d : document).

Record world : Type := {
  (** exit status and combined output of a git command run for a working
      copy of [repo] *)
  git_exec : string -> list string -> Z * string;
  (** states.yaml of [repo] on [branch] *)
  manifest : string -> string -> manifest_file;
}.

Definition M (A : Type) : Type := world -> list event * (exn + A).

Definition ret {A} (a : A) : M A := fun _ => ([], inr a).
Definition raise {A} (e : exn) : M A := fun _ => ([], inl e).
Definition emit (ev : event) : M unit := fun _ => ([ev], inr tt).
Definition ask : M world := fun w => ([], inr w).

Definition bind {A B} (m : M A) (f : A -> M B) : M B :=
  fun w =>
    match m w with
    | (tr, inl e) => (tr, inl e)
    | (tr, inr a) => let '(tr', r) := f a w in ((tr ++ tr')%list, r)
    end.

(** [try: m except <handled>: h] *)
Definition try_except {A} (m : M A) (handler : exn -> option (M A)) : M A :=
  fun w =>
    match m w with
    | (tr, inl e) =>
        match handler e with
        | Some h => let '(tr', r) := h w in ((tr ++ tr')%list, r)
        | None => (tr, inl e)
        end
    | r => r
    end.

(** [try: m finally: fin] *)
Definition finally {A} (m : M A) (fin : M unit) : M A :=
  fun w =>
    let '(tr, r) := m w in
    match fin w with
    | (tr', inl e) => ((tr ++ tr')%list, inl e)
    | (tr', inr _) => ((tr ++ tr')%list, r)
    end.

#[global] Instance M_ret : MRet M := @ret.
#[global] Instance M_bind : MBind M := fun A B f m => bind m f.

(** ** nacli.git *)

Module Repo.

(** a working copy of the remote repository [_url] *)
Record t : Type := { _url : string }.

(** the arguments of a subprocess are [str]s; anything else makes
    [subprocess.check_output] raise [TypeError] before a process starts *)
Fixpoint str_args (cmds : list pyval) : option (list string) :=
  match cmds with
  | [] => Some []
  | PStr s :: rest =>
      match str_args rest with
      | Some l => Some (s :: l)
      | None => None
      end
  | _ :: _ => None
  end.

Definition failed_msg (cmds : list string) (returncode : Z) (output : string) : string :=
  "command " ++ String Py.dquote (Str.join " " cmds) ++ String Py.dquote ""
  ++ " failed with exit code " ++ String Py.dquote (Str.of_Z returncode) ++ String Py.dquote ""
  ++ " and output: "
  ++ String Py.dquote (Str.strip "; " (Str.replace_newline output)) ++ String Py.dquote "".

(** [git(self, *cmds)], run for the working copy of [url] *)
Definition git_at (url : string) (cmds : list pyval) : M string :=
  let cmds := PStr "git" :: cmds in
  match str_args cmds with
  | None => raise TypeError
  | Some args =>
      emit (EvGit url args);;
      w ← ask;
      let '(returncode, output) := git_exec w url args in
      if (returncode =? 0)%Z then mret output
      else raise (GitError (failed_msg args returncode output))
  end.

Definition git (self : t) (cmds : list pyval) : M string :=
  git_at (_url self) cmds.

(** [Repo(url)]: the shallow clone of all branches *)
Definition __init__ (url : pyval) : M t :=
  match url with
  | PStr u =>
      git_at u [PStr "clone"; PStr "--depth=1"; PStr "--quiet";
                PStr "--no-single-branch"; url; PStr "git"];;
      mret {| _url := u |}
  | _ => raise TypeError
  end.

Definition __exit__ (self : t) : M unit := emit (EvCleanup (_url self)).

(** [with Repo(url=url) as repo: body repo] *)
Definition with_repo {A} (url : pyval) (body : t -> M A) : M A :=
  repo ← __init__ url;
  finally (body repo) (__exit__ repo).

(** the match of [\s*remotes/origin/(?P<branch>[^\s]+$)] at the start of a
    line: the group [branch].  The class [\s] is [Str.whitespace], which is
    the class of the code on the characters below 128 *)
Fixpoint all_nonspace (s : string) : bool :=
  match s with
  | EmptyString => true
  | String c rest => negb (Str.is_space c) && all_nonspace rest
  end.

Definition match_branch (line : string) : option string :=
  match Str.drop_prefix "remotes/origin/" (Str.lstrip Str.whitespace line) with
  | Some (String c rest as b) => if all_nonspace b then Some b else None
  | _ => None
  end.

(** the property [branches], as the list the generator yields *)
Definition branches (self : t) : M (list string) :=
  out ← git self [PStr "branch"; PStr "--list"; PStr "--all"];
  mret (omap match_branch (Str.split_lines out)).

Definition validate_branch (self : t) (branch : pyval) : M unit :=
  out ← git self [PStr "branch"; PStr "--list"; PStr "--all";
                  PStr ("origin/" ++ Py.str branch)];
  if String.eqb out "" then
    raise (GitError ("Branch " ++ Py.str branch ++ " not found for repository " ++ _url self))
  else mret tt.

Definition validate_tag (self : t) (tag : pyval) : M unit :=
  out ← git self [PStr "tag"; PStr "--list"; tag];
  if String.eqb out "" then
    raise (GitError ("Tag " ++ Py.str tag ++ " not found for repository " ++ _url self))
  else mret tt.

Definition validate_commit (self : t) (commit : pyval) : M unit :=
  out ← git self [PStr "cat-file"; PStr "-t"; commit];
  let output := Str.strip Str.whitespace out in
  if String.eqb output "commit" then mret tt
  else
    raise (GitError ("Commit " ++ Py.str commit ++ " not found for repository " ++ _url self)).

End Repo.

(** ** nacli.statetree *)

(** [GitRef] through its three subclasses, each holding the name *)
Inductive GitRef : Type :=
| GitBranch (name : pyval)
| GitCommit (name : pyval)
| GitTag (name : pyval).

Module Ref.

Definition name (r : GitRef) : pyval :=
  match r with GitBranch n | GitCommit n | GitTag n => n end.

Definition reftype (r : GitRef) : string :=
  match r with
  | GitBranch _ => "branch"
  | GitCommit _ => "commit"
  | GitTag _ => "tag"
  end.

Definition __str__ (r : GitRef) : string :=
  Str.capitalize (reftype r) ++ ": " ++ Py.str (name r).

End Ref.

Module State.

Record t : Type := { name : pyval; url : pyval; ref : option GitRef }.

Definition __repr__ (self : t) : string :=
  let state := Py.str (name self) ++ " (" ++ Py.str (url self) ++ ")" in
  match ref self with
  | Some r => state ++ " [" ++ Ref.__str__ r ++ "]"
  | None => state
  end.

(** [self < other], which is [str(other) > str(self)] *)
Definition __lt__ (self other : t) : bool :=
  String.ltb (__repr__ self) (__repr__ other).

Definition validators (state_repo : Repo.t) : list (string * (pyval -> M unit)) :=
  [("branch", Repo.validate_branch state_repo);
   ("commit", Repo.validate_commit state_repo);
   ("tag", Repo.validate_tag state_repo)].

Fixpoint lookup_validator (k : string) (l : list (string * (pyval -> M unit)))
  : option (pyval -> M unit) :=
  match l with
  | [] => None
  | (k', f) :: rest => if String.eqb k' k then Some f else lookup_validator k rest
  end.

(** the body of the [with] block of [as_dict]; [self.ref.reftype] raises
    [AttributeError] when [self.ref] is [None], which the block passes over *)
Definition verify_ref (self : t) (state_repo : Repo.t) : M unit :=
  try_except
    (match ref self with
     | None => raise AttributeError
     | Some r =>
         match lookup_validator (Ref.reftype r) (validators state_repo) with
         | Some validate => validate (Ref.name r)
         | None => raise KeyError
         end
     end)
    (fun e => match e with AttributeError => Some (mret tt) | _ => None end).

(** [as_dict(self, verify_refs)]: the one-item mapping of the state *)
Definition as_dict (self : t) (verify_refs : bool) : M Dict.items_t :=
  (if verify_refs then Repo.with_repo (url self) (verify_ref self) else mret tt);;
  match ref self with
  | Some r =>
      mret [(name self,
             PDict (Dict.setitem (PStr (Ref.reftype r)) (Ref.name r)
                      [(PStr "url", url self)]))]
  | None => mret [(name self, url self)]
  end.

End State.

(** ** The YAML library, as far as the program uses it

    [yaml.safe_dump] is modelled up to the representation graph that the
    representer builds and the emitter writes out in order; [yaml.safe_load]
    of an emitted document is the constructor applied to that graph.  The
    text of a document is not modelled. *)

Inductive node : Type :=
| ScalarNode (tag value : string)
| SequenceNode (l : list node)
| MappingNode (items : list (node * node)).

Module Yaml.

Definition tag_null : string := "tag:yaml.org,2002:null".
Definition tag_int : string := "tag:yaml.org,2002:int".
Definition tag_str : string := "tag:yaml.org,2002:str".

(** the keys of a mapping can be sorted when they compare with each other:
    all [int] or all [str] *)
Definition sortable (keys : list pyval) : bool :=
  forallb Py.is_int keys || forallb Py.is_str keys.

Definition item_ltb {B} (a b : pyval * B) : bool := Py.key_ltb (fst a) (fst b).

(** [represent_mapping] sorts the items of a mapping ([sort_keys] is left
    at its default), and leaves them as they are when sorting raises
    [TypeError] *)
Definition mapping_order {B} (items : list (pyval * B)) : list (pyval * B) :=
  if sortable (List.map fst items) then Py.sorted item_ltb items else items.

(** the representer of [safe_dump] *)
Fixpoint represent (v : pyval) : node :=
  match v with
  | PNone => ScalarNode tag_null "null"
  | PInt z => ScalarNode tag_int (Str.of_Z z)
  | PStr s => ScalarNode tag_str s
  | PList l => SequenceNode (List.map represent l)
  | PDict items =>
      MappingNode
        (List.map snd
           (mapping_order
              ((fix each (items : Dict.items_t) : list (pyval * (node * node)) :=
                  match items with
                  | [] => []
                  | (k, x) :: rest => (k, (represent k, represent x)) :: each rest
                  end) items)))
  end.

(** [yaml.safe_dump(data, default_flow_style=False)] *)
Definition safe_dump (data : pyval) : node := represent data.

Definition hashable (v : pyval) : bool :=
  match v with
  | PNone | PInt _ | PStr _ => true
  | PList _ | PDict _ => false
  end.

(** the constructor of [safe_load]; [None] is a [ConstructorError] *)
Fixpoint construct (n : node) : option pyval :=
  match n with
  | ScalarNode tag value =>
      if String.eqb tag tag_null then Some PNone
      else if String.eqb tag tag_int then option_map PInt (Str.to_Z value)
      else if String.eqb tag tag_str then Some (PStr value)
      else None
  | SequenceNode l =>
      option_map PList
        ((fix each (l : list node) : option (list pyval) :=
            match l with
            | [] => Some []
            | n :: rest =>
                match construct n, each rest with
                | Some v, Some vs => Some (v :: vs)
                | _, _ => None
                end
            end) l)
  | MappingNode items =>
      option_map PDict
        ((fix each (items : list (node * node)) (mapping : Dict.items_t)
            : option Dict.items_t :=
            match items with
            | [] => Some mapping
            | (key_node, value_node) :: rest =>
                match construct key_node, construct value_node with
                | Some key, Some value =>
                    if hashable key then each rest (Dict.setitem key value mapping)
                    else None
                | _, _ => None
                end
            end) items [])
  end.

(** a value with the items of every mapping in the order they are dumped *)
Fixpoint canonical (v : pyval) : pyval :=
  match v with
  | PList l => PList (List.map canonical l)
  | PDict items =>
      PDict
        (mapping_order
           ((fix each (items : Dict.items_t) : Dict.items_t :=
               match items with
               | [] => []
               | (k, x) :: rest => (k, canonical x) :: each rest
               end) items))
  | _ => v
  end.

(** the loop of [construct_mapping]: [mapping[key] = value] for each pair of
    nodes *)
Fixpoint construct_items (items : list (node * node)) (mapping : Dict.items_t)
  : option Dict.items_t :=
  match items with
  | [] => Some mapping
  | (key_node, value_node) :: rest =>
      match construct key_node, construct value_node with
      | Some key, Some value =>
          if hashable key then construct_items rest (Dict.setitem key value mapping)
          else None
      | _, _ => None
      end
  end.

End Yaml.

Module StateTreeRepo.

Definition _state_options : list string := ["branch"; "commit"; "tag"; "url"].

(** [sep.join(l)]: every item has to be a [str] *)
Definition join (sep : string) (l : list pyval) : exn + string :=
  match Repo.str_args l with
  | Some strs => inr (Str.join sep strs)
  | None => inl TypeError
  end.

(** [len(v)] *)
Definition len (v : pyval) : exn + nat :=
  match v with
  | PStr s => inr (String.length s)
  | PList l => inr (List.length l)
  | PDict d => inr (List.length d)
  | PNone | PInt _ => inl TypeError
  end.

(** [str(s)] of a set of keys.  A set lists its elements in the order of
    their hashes, which for [str] keys changes from one run to the next; the
    model keeps the order of the mapping, so the text is the one of the code
    for a set of one element, and one of the possible orders otherwise *)
Definition set_str (l : list pyval) : string :=
  "{" ++ Str.join ", " (List.map Py.repr l) ++ "}".

(** what a call of [_verify_state] leaves behind *)
Record outcome : Type := {
  result : exn + State.t;
  (** the object passed as [state], after the call *)
  state_after : pyval;
  (** the object that was the value of the entry, after the call (when the
      call got as far as taking it out of the entry) *)
  options_after : option pyval;
  (** what was printed *)
  stdout : list event;
}.

Definition is_valid_option (k : pyval) : bool :=
  existsb (fun o => Py.key_eqb k (PStr o)) _state_options.

(** the part of [_verify_state] that reads a mapping of options: the result
    and the mapping after the call *)
Definition verify_options (state_name : pyval) (state_options : Dict.items_t)
  : (exn + State.t) * Dict.items_t :=
  let invalid_keys := List.filter (fun k => negb (is_valid_option k)) (Dict.keys state_options) in
  match invalid_keys with
  | _ :: _ =>
      (inl (StateParseError ("State " ++ Py.str state_name ++ " invalid options: "
                               ++ set_str invalid_keys)),
       state_options)
  | [] =>
      match Dict.get (PStr "url") state_options with
      | None =>
          (inl (StateParseError ("State " ++ Py.str state_name
                                   ++ " missing mandatory option "
                                   ++ String Py.dquote "url" ++ String Py.dquote "")),
           state_options)
      | Some url =>
          let state_options := Dict.remove (PStr "url") state_options in
          if (1 <? List.length state_options)%nat then
            match join (String Py.dquote ", " ++ String Py.dquote "") (Dict.keys state_options) with
            | inl e => (inl e, state_options)
            | inr joined =>
                (inl (StateParseError
                        ("State " ++ Py.str state_name ++ " more than one of "
                           ++ String Py.dquote "commit" ++ String Py.dquote ", "
                           ++ String Py.dquote "tag" ++ String Py.dquote " or "
                           ++ String Py.dquote "branch" ++ String Py.dquote " specified: "
                           ++ String Py.dquote joined ++ String Py.dquote "")),
                 state_options)
            end
          else
            let ref :=
              match Dict.get (PStr "branch") state_options with
              | Some b => Some (GitBranch b)
              | None =>
                  match Dict.get (PStr "commit") state_options with
                  | Some c => Some (GitCommit c)
                  | None =>
                      match Dict.get (PStr "tag") state_options with
                      | Some x => Some (GitTag x)
                      | None => None
                      end
                  end
              end in
            (inr {| State.name := state_name; State.url := url; State.ref := ref |},
             state_options)
      end
  end.

(** [_verify_state(state)] *)
Definition _verify_state (state : pyval) : outcome :=
  let printed := [EvPrint state] in
  let stop (e : exn) (state : pyval) (opts : option pyval) :=
    {| result := inl e; state_after := state; options_after := opts; stdout := printed |} in
  match len state with
  | inl e => stop e state None
  | inr n =>
      if negb (n =? 1)%nat then
        match state with
        | PDict items =>
            match join "," (Dict.keys items) with
            | inl e => stop e state None
            | inr joined =>
                stop (StateParseError
                        ("State should have options grouped under a single key, not "
                           ++ joined)) state None
            end
        | _ => stop AttributeError state None
        end
      else
        match state with
        | PDict items =>
            match Dict.popitem items with
            | None => stop KeyError state None
            | Some ((state_name, state_options), items') =>
                let state := PDict items' in
                match state_options with
                | PStr _ =>
                    {| result := inr {| State.name := state_name;
                                        State.url := state_options;
                                        State.ref := None |};
                       state_after := state;
                       options_after := Some state_options;
                       stdout := printed |}
                | PDict opts =>
                    let '(r, opts') := verify_options state_name opts in
                    {| result := r;
                       state_after := state;
                       options_after := Some (PDict opts');
                       stdout := printed |}
                | _ =>
                    stop (StateParseError
                            ("State " ++ Py.str state_name
                               ++ " options should be passed as str or dict, not "
                               ++ Py.type_name state_options))
                      state (Some state_options)
                end
            end
        | _ => stop AttributeError state None
        end
  end.

(** the object: the working copy and [self._environments] *)
Record t : Type := {
  repo : Repo.t;
  _environments : gmap string (list State.t);
}.

(** [for state in v]: what iterating over a decoded manifest yields *)
Definition iter (v : pyval) : exn + list pyval :=
  match v with
  | PList l => inr l
  | PDict d => inr (Dict.keys d)
  | PStr s => inr (List.map (fun c => PStr (String c "")) (list_ascii_of_string s))
  | PNone | PInt _ => inl TypeError
  end.

(** [envs[branch]] on the [defaultdict(list)]: a missing key is created *)
Definition touch (branch : string) (envs : gmap string (list State.t))
  : gmap string (list State.t) :=
  match envs !! branch with
  | Some _ => envs
  | None => <[branch := []]> envs
  end.

Definition emit_all (evs : list event) : M unit := fun _ => (evs, inr tt).

(** the loop over the entries of one manifest:
    [self._environments[branch].append(self._verify_state(state))] *)
Fixpoint scan_entries (branch : string) (entries : list pyval)
  (envs : gmap string (list State.t)) : M (gmap string (list State.t)) :=
  match entries with
  | [] => mret envs
  | state :: rest =>
      let envs := touch branch envs in
      let out := _verify_state state in
      emit_all (stdout out);;
      match result out with
      | inl e => raise e
      | inr st => scan_entries branch rest (<[branch := ((envs !!! branch) ++ [st])%list]> envs)
      end
  end.

(** the contents of a place of a document with aliases, as a value; the
    fuel is the number of objects, which is enough when no object contains
    itself *)
Fixpoint resolve (fuel : nat) (objects : list object) (s : slot) : pyval :=
  match s with
  | Own v => v
  | Ref l =>
      match fuel with
      | O => PDict []
      | S fuel =>
          PDict (List.map (fun kx => (fst kx, resolve fuel objects (snd kx)))
                   (objects !!! l))
      end
  end.

Definition view (objects : list object) (items : object) : Dict.items_t :=
  List.map (fun kx => (fst kx, resolve (List.length objects) objects (snd kx))) items.

(** the items left by [o.pop(k)] *)
Fixpoint pop_key (k : pyval) (o : object) : object :=
  match o with
  | [] => []
  | (k', x) :: rest => if Py.key_eqb k' k then rest else (k', x) :: pop_key k rest
  end.

(** what a call of [_verify_state] on a place of a document with aliases
    leaves behind: the result, the mapping objects after the call and what
    was printed *)
Record shared_outcome : Type := {
  shared_result : exn + State.t;
  objects_after : list object;
  shared_stdout : list event;
}.

(** [_verify_state(state)] when [state] may be a shared mapping object: the
    validator above runs on the contents the objects have at that moment,
    and what [popitem] and [pop] take out is taken out of the objects *)
Definition verify_shared (objects : list object) (state : slot) : shared_outcome :=
  match state with
  | Own v =>
      let out := _verify_state v in
      {| shared_result := result out; objects_after := objects; shared_stdout := stdout out |}
  | Ref l =>
      let items := objects !!! l in
      let printed := [EvPrint (PDict (view objects items))] in
      match items with
      | [(state_name, value)] =>
          let objects := <[l := []]> objects in
          match value with
          | Own v =>
              {| shared_result := result (_verify_state (PDict [(state_name, v)]));
                 objects_after := objects;
                 shared_stdout := printed |}
          | Ref l' =>
              let state_options := objects !!! l' in
              let '(r, remaining) := verify_options state_name (view objects state_options) in
              {| shared_result := r;
                 objects_after :=
                   if (List.length remaining <? List.length state_options)%nat
                   then <[l' := pop_key (PStr "url") state_options]> objects
                   else objects;
                 shared_stdout := printed |}
          end
      | _ =>
          {| shared_result := result (_verify_state (PDict (view objects items)));
             objects_after := objects;
             shared_stdout := printed |}
      end
  end.

(** the loop over the entries of a manifest with aliases *)
Fixpoint scan_shared (branch : string) (objects : list object) (entries : list slot)
  (envs : gmap string (list State.t)) : M (gmap string (list State.t)) :=
  match entries with
  | [] => mret envs
  | state :: rest =>
      let envs := touch branch envs in
      let out := verify_shared objects state in
      emit_all (shared_stdout out);;
      match shared_result out with
      | inl e => raise e
      | inr st =>
          scan_shared branch (objects_after out) rest
            (<[branch := ((envs !!! branch) ++ [st])%list]> envs)
      end
  end.

(** [open(...)] followed by [yaml.safe_load] *)
Definition load_manifest (url branch : string) : M document :=
  emit (EvOpen url);;
  w ← ask;
  match manifest w url branch with
  | Absent => raise FileNotFoundError
  | Undecodable msg => raise (YAMLError msg)
  | Raises e => raise e
  | Decoded d => mret d
  end.

(** the body of the loop of [_scan] for one branch *)
Definition scan_branch (r : Repo.t) (branch : string)
  (envs : gmap string (list State.t)) : M (gmap string (list State.t)) :=
  Repo.git r [PStr "checkout"; PStr branch];;
  try_except
    (d ← load_manifest (Repo._url r) branch;
     match d with
     | Tree v =>
         match iter v with
         | inl e => raise e
         | inr entries => scan_entries branch entries envs
         end
     | Graph objects entries => scan_shared branch objects entries envs
     end)
    (fun e =>
       match e with
       | YAMLError exc =>
           Some (raise (StateParseError ("Could no parse states.yaml for branch "
                                           ++ branch ++ ": " ++ exc)))
       | FileNotFoundError => Some (mret envs)
       | _ => None
       end).

Fixpoint scan_branches (r : Repo.t) (branches : list string)
  (envs : gmap string (list State.t)) : M (gmap string (list State.t)) :=
  match branches with
  | [] => mret envs
  | branch :: rest =>
      envs ← scan_branch r branch envs;
      scan_branches r rest envs
  end.

(** [_scan(self)] *)
Definition _scan (self : t) : M t :=
  branches ← Repo.branches (repo self);
  envs ← scan_branches (repo self) branches (_environments self);
  mret {| repo := repo self; _environments := envs |}.

(** [StateTreeRepo(url)]: the caller gets the object only when the scan
    has not raised *)
Definition __init__ (url : pyval) : M t :=
  r ← Repo.__init__ url;
  _scan {| repo := r; _environments := ∅ |}.

(** the loop of [yaml]: [_yaml.update(state.as_dict())] for each state *)
Fixpoint export_states (states : list State.t) (_yaml : Dict.items_t) : M Dict.items_t :=
  match states with
  | [] => mret _yaml
  | state :: rest =>
      d ← State.as_dict state true;
      export_states rest (Dict.update _yaml d)
  end.

(** [yaml(self, environment)]: the object after the call and the document *)
Definition yaml (self : t) (environment : string) : M (t * node) :=
  let envs := touch environment (_environments self) in
  _yaml ← export_states (Py.sorted State.__lt__ (envs !!! environment)) [];
  mret ({| repo := repo self; _environments := envs |},
        Yaml.safe_dump (PDict _yaml)).

End StateTreeRepo.

(** ** Vocabulary of the statements *)

(** the lookup command of a reference ran with exit status 0 and found no
    such reference in the working copy of [url] *)
Definition lookup_finds_nothing (w : world) (url : string) (r : GitRef) : Prop :=
  match r with
  | GitBranch n =>
      git_exec w url ["git"; "branch"; "--list"; "--all"; "origin/" ++ Py.str n] = (0%Z, "")
  | GitTag n =>
      git_exec w url ["git"; "tag"; "--list"; Py.str n] = (0%Z, "")
  | GitCommit n =>
      exists out, git_exec w url ["git"; "cat-file"; "-t"; Py.str n] = (0%Z, out)
                  /\ Str.strip Str.whitespace out <> "commit"
  end.

(** the validator that [as_dict] picks for a reference *)
Definition validate (state_repo : Repo.t) (r : GitRef) : M unit :=
  match State.lookup_validator (Ref.reftype r) (State.validators state_repo) with
  | Some f => f (Ref.name r)
  | None => raise KeyError
  end.

Definition not_found_msg (url : string) (r : GitRef) : string :=
  Str.capitalize (Ref.reftype r) ++ " " ++ Py.str (Ref.name r)
  ++ " not found for repository " ++ url.

(** a world in which every git command exits with [code] and prints [out] *)
Definition constant_world (code : Z) (out : string) : world :=
  {| git_exec := fun _ _ => (code, out); manifest := fun _ _ => Absent |}.

(** the command line of the clone that [Repo(url)] runs *)
Definition clone_cmd (url : string) : list string :=
  ["git"; "clone"; "--depth=1"; "--quiet"; "--no-single-branch"; url; "git"].

Definition is_print (ev : event) : Prop :=
  match ev with EvPrint _ => True | _ => False end.

(** a root repository with the branches base, broken and master: base has
    a manifest with one entry, broken has a manifest that does not decode,
    master has none *)
Definition root_world : world :=
  {| git_exec := fun _ cmds =>
       match cmds with
       | ["git"; "branch"; "--list"; "--all"] =>
           (0%Z, "  remotes/origin/master" ++ String Str.newline ""
                 ++ "  remotes/origin/base" ++ String Str.newline ""
                 ++ "  remotes/origin/broken" ++ String Str.newline "")
       | _ => (0%Z, "")
       end;
     manifest := fun _ branch =>
       if String.eqb branch "base" then Decoded (PList [PDict [(PStr "api", PStr "u")]])
       else if String.eqb branch "broken" then Undecodable "mapping values are not allowed here"
       else Absent |}.

Definition checkout_cmd (branch : string) : list string := ["git"; "checkout"; branch].

Definition parse_error_msg (branch exc : string) : string :=
  "Could no parse states.yaml for branch " ++ branch ++ ": " ++ exc.

(** the value a state is exported under *)
Definition exported_value (s : State.t) : pyval :=
  match State.ref s with
  | Some r =>
      PDict (Dict.setitem (PStr (Ref.reftype r)) (Ref.name r) [(PStr "url", State.url s)])
  | None => State.url s
  end.

(** the mapping that the loop of [yaml] builds from the states in the order
    it takes them *)
Definition merged (states : list State.t) (_yaml : Dict.items_t) : Dict.items_t :=
  fold_left (fun acc s => Dict.setitem (State.name s) (exported_value s) acc) states _yaml.

(** the state that a list has last under the name [n] *)
Definition last_named (n : pyval) (states : list State.t) : option State.t :=
  fold_left (fun acc s => if Py.key_eqb (State.name s) n then Some s else acc) states None.

(** the states of an environment, in the order of the manifest *)
Definition states_of (self : StateTreeRepo.t) (environment : string) : list State.t :=
  StateTreeRepo._environments self !!! environment.

(** what the caller of [yaml] gets: the document, or the exception *)
Definition exported (self : StateTreeRepo.t) (environment : string) (w : world)
  : exn + node :=
  match snd (StateTreeRepo.yaml self environment w) with
  | inl e => inl e
  | inr (_, doc) => inr doc
  end.

Definition tree_of (environment : string) (states : list State.t) : StateTreeRepo.t :=
  {| StateTreeRepo.repo := {| Repo._url := "root" |};
     StateTreeRepo._environments := {[ environment := states ]} |}.

(** a root repository whose only branch, base, lists the state a twice:
    first from the URL z, then from the URL b *)
Definition duplicate_world : world :=
  {| git_exec := fun _ cmds =>
       match cmds with
       | ["git"; "branch"; "--list"; "--all"] =>
           (0%Z, "  remotes/origin/base" ++ String Str.newline "")
       | _ => (0%Z, "ok")
       end;
     manifest := fun _ _ =>
       Decoded (PList [PDict [(PStr "a", PStr "z")]; PDict [(PStr "a", PStr "b")]]) |}.

Definition plain_state (name url : string) : State.t :=
  {| State.name := PStr name; State.url := PStr url; State.ref := None |}.

(** two states of one name with the same canonical rendering *)
Definition twin_branch : State.t :=
  {| State.name := PStr "a"; State.url := PStr "u) [Tag: x";
     State.ref := Some (GitBranch (PStr "y")) |}.

Definition twin_tag : State.t :=
  {| State.name := PStr "a"; State.url := PStr "u";
     State.ref := Some (GitTag (PStr "x) [Branch: y")) |}.

Definition str_node (s : string) : node := ScalarNode Yaml.tag_str s.

(** the text of a key that is a [str] *)
Definition str_of (k : pyval) : string :=
  match k with PStr s => s | _ => "" end.

(** the keys of the top level of a document, in the order they are written *)
Definition top_level_keys (doc : node) : list node :=
  match doc with
  | MappingNode items => List.map fst items
  | _ => []
  end.

(** no two keys of the list are equal *)
Fixpoint distinct (keys : list pyval) : bool :=
  match keys with
  | [] => true
  | k :: rest => negb (existsb (Py.key_eqb k) rest) && distinct rest
  end.

(** a value Python can build: the keys of every mapping are hashable and
    pairwise different *)
Fixpoint well_formed (v : pyval) : bool :=
  match v with
  | PList l => forallb well_formed l
  | PDict items =>
      distinct (List.map fst items)
      && (fix each (items : Dict.items_t) : bool :=
            match items with
            | [] => true
            | (k, x) :: rest => Yaml.hashable k && well_formed x && each rest
            end) items
  | _ => true
  end.

Definition state_well_formed (s : State.t) : bool :=
  Yaml.hashable (State.name s) && well_formed (State.url s)
  && match State.ref s with
     | Some r => well_formed (Ref.name r)
     | None => true
     end.

Definition canonical_ref (r : GitRef) : GitRef :=
  match r with
  | GitBranch n => GitBranch (Yaml.canonical n)
  | GitCommit n => GitCommit (Yaml.canonical n)
  | GitTag n => GitTag (Yaml.canonical n)
  end.

(** a state with the name of its reference in the order it is dumped *)
Definition canonical_state (s : State.t) : State.t :=
  {| State.name := State.name s;
     State.url := State.url s;
     State.ref := option_map canonical_ref (State.ref s) |}.

(** the states of the scenario of the specification: api without a
    reference, db pinned to the tag v1.0 *)
Definition scenario_states : list State.t :=
  [plain_state "api" "https://example/api.git";
   {| State.name := PStr "db"; State.url := PStr "https://example/db.git";
      State.ref := Some (GitTag (PStr "v1.0")) |}].

(** [a] is not above [b] in the order of [ltb] *)
Definition not_above {A : Type} (ltb : A -> A -> bool) (a b : A) : Prop := ltb b a = false.

(** every character of [s] is whitespace *)
Fixpoint all_space (s : string) : bool :=
  match s with
  | EmptyString => true
  | String c rest => Str.is_space c && all_space rest
  end.

(** [c] occurs in [s] *)
Fixpoint occurs (c : ascii) (s : string) : bool :=
  match s with
  | EmptyString => false
  | String d rest => Ascii.eqb d c || occurs c rest
  end.

(** the command line with which [as_dict] looks a reference up *)
Definition lookup_cmd (r : GitRef) : list string :=
  match r with
  | GitBranch n => ["git"; "branch"; "--list"; "--all"; "origin/" ++ Py.str n]
  | GitCommit n => ["git"; "cat-file"; "-t"; Py.str n]
  | GitTag n => ["git"; "tag"; "--list"; Py.str n]
  end.

(** the output of a lookup command shows that the reference exists *)
Definition found (r : GitRef) (out : string) : bool :=
  match r with
  | GitBranch _ | GitTag _ => negb (String.eqb out "")
  | GitCommit _ => String.eqb (Str.strip Str.whitespace out) "commit"
  end.

Definition is_StateParseError (r : exn + State.t) : Prop :=
  match r with
  | inl (StateParseError _) => True
  | _ => False
  end.

(** the reference that a kind of option makes of a name *)
Definition ref_of_kind (kind : string) (n : pyval) : option GitRef :=
  if String.eqb kind "branch" then Some (GitBranch n)
  else if String.eqb kind "commit" then Some (GitCommit n)
  else if String.eqb kind "tag" then Some (GitTag n)
  else None.

(** the validator returned a state or raised StateParseError *)
Definition state_or_parse_error (r : exn + State.t) : Prop :=
  match r with
  | inr _ => True
  | inl (StateParseError _) => True
  | inl _ => False
  end.

(** every key of the options is one of branch, commit, tag and url *)
Definition options_known (opts : Dict.items_t) : bool :=
  forallb StateTreeRepo.is_valid_option (Dict.keys opts).

Definition quoted (s : string) : string := String Py.dquote s ++ String Py.dquote "".

(** a command line of git clone *)
Definition is_clone (cmds : list string) : bool :=
  match cmds with
  | _ :: subcommand :: _ => String.eqb subcommand "clone"
  | _ => false
  end.

(** the repositories that a trace clones, in the order of the clones *)
Fixpoint cloned_urls (tr : list event) : list string :=
  match tr with
  | [] => []
  | EvGit u cmds :: rest => if is_clone cmds then u :: cloned_urls rest else cloned_urls rest
  | _ :: rest => cloned_urls rest
  end.

(** every character of [s] is below 128 *)
Fixpoint is_ascii (s : string) : bool :=
  match s with
  | EmptyString => true
  | String c rest => (nat_of_ascii c <? 128)%nat && is_ascii rest
  end.

(** a root repository with the one branch latin1, whose manifest holds
    bytes that are not UTF-8: reading it raises UnicodeDecodeError *)
Definition garbled_world : world :=
  {| git_exec := fun _ cmds =>
       match cmds with
       | ["git"; "branch"; "--list"; "--all"] =>
           (0%Z, "  remotes/origin/latin1" ++ String Str.newline "")
       | _ => (0%Z, "")
       end;
     manifest := fun _ _ => Raises UnicodeDecodeError |}.

(** the options that are not among branch, commit, tag and url *)
Definition unknown_options (opts : Dict.items_t) : list pyval :=
  List.filter (fun k => negb (StateTreeRepo.is_valid_option k)) (Dict.keys opts).

(** a mapping object with the items of [items], none of them shared *)
Definition own_items (items : Dict.items_t) : object :=
  List.map (fun kx => (fst kx, Own (snd kx))) items.

(** the manifest
    [- name1: &c {options}]
    [- name2: *c]
    in which two entries share one mapping of options *)
Definition shared_options (name1 name2 : string) (opts : Dict.items_t) : document :=
  Graph [[(PStr name1, Ref 2)]; [(PStr name2, Ref 2)]; own_items opts] [Ref 0; Ref 1].

(** * Theorems *)

Lemma git_at_ok w url (cmds : list pyval) (args : list string) out :
  Repo.str_args (PStr "git" :: cmds) = Some args ->
  git_exec w url args = (0%Z, out) ->
  Repo.git_at url cmds w = ([EvGit url args], inr out).
Proof.
  intros Hs H. unfold Repo.git_at. rewrite Hs.
  unfold mbind, M_bind, bind, emit, ask. simpl. rewrite H. reflexivity.
Qed.

Lemma git_at_failed w url (cmds : list pyval) (args : list string) code out :
  Repo.str_args (PStr "git" :: cmds) = Some args ->
  git_exec w url args = (code, out) -> code <> 0%Z ->
  Repo.git_at url cmds w
  = ([EvGit url args], inl (GitError (Repo.failed_msg args code out))).
Proof.
  intros Hs H Hc. unfold Repo.git_at. rewrite Hs.
  unfold mbind, M_bind, bind, emit, ask. simpl. rewrite H.
  destruct (Z.eqb_spec code 0); [contradiction | reflexivity].
Qed.

Lemma str_args_map (l : list string) : Repo.str_args (List.map PStr l) = Some l.
Proof. induction l as [|x l IH]; simpl; [reflexivity | now rewrite IH]. Qed.

(** C1, as the code has it: when the lookup command of a branch, tag or
    commit exits with status 0 and finds nothing, the validator raises
    GitError with the message <Kind> <name> not found for repository <url>;
    a git command that exits non-zero raises GitError as well, so the two
    failures have the same exception class and differ in their message. *)
Theorem validate_absent_ref_raises_GitError (w : world) (url name : string) (r : GitRef) :
  Ref.name r = PStr name ->
  lookup_finds_nothing w url r ->
  (exists tr, validate {| Repo._url := url |} r w
              = (tr, inl (GitError (not_found_msg url r))))
  /\ (forall args code out,
         git_exec w url ("git" :: args) = (code, out) -> code <> 0%Z ->
         exists tr msg,
           Repo.git {| Repo._url := url |} (List.map PStr args) w = (tr, inl (GitError msg))
           /\ class_of (GitError msg) = class_of (GitError (not_found_msg url r))).
Proof.
  intros Hn Hl. split.
  - destruct r as [n|n|n]; simpl in Hn; subst n; simpl in Hl;
      unfold validate; simpl; unfold not_found_msg; simpl.
    + unfold Repo.validate_branch, Repo.git, mbind, M_bind, bind. simpl.
      erewrite git_at_ok; [|reflexivity|exact Hl]. simpl. eauto.
    + destruct Hl as (out & Hout & Hne).
      unfold Repo.validate_commit, Repo.git, mbind, M_bind, bind. simpl.
      erewrite git_at_ok; [|reflexivity|exact Hout].
      destruct (String.eqb_spec (Str.strip Str.whitespace out) "commit"); [contradiction|].
      simpl. eauto.
    + unfold Repo.validate_tag, Repo.git, mbind, M_bind, bind. simpl.
      erewrite git_at_ok; [|reflexivity|exact Hl]. simpl. eauto.
  - intros args code out H Hc. unfold Repo.git. simpl Repo._url.
    erewrite git_at_failed; [| cbn [Repo.str_args]; rewrite str_args_map; reflexivity
                             | exact H | exact Hc].
    eauto.
Qed.

Lemma validate_absent_ref_raises_GitError_witness :
  exists tr, validate {| Repo._url := "u" |} (GitTag (PStr "v9")) (constant_world 0 "")
             = (tr, inl (GitError "Tag v9 not found for repository u")).
Proof.
  exact (proj1 (validate_absent_ref_raises_GitError
                  (constant_world 0 "") "u" "v9" (GitTag (PStr "v9")) eq_refl eq_refl)).
Defined.

(** C1 as stated fails: for the tag v9, the error raised when the lookup
    succeeds without a match and the error raised when git exits with 128
    are of one class. *)
Lemma validate_not_found_same_class_as_failure :
  exists e1 e2,
    snd (Repo.validate_tag {| Repo._url := "u" |} (PStr "v9") (constant_world 0 "")) = inl e1
    /\ snd (Repo.validate_tag {| Repo._url := "u" |} (PStr "v9") (constant_world 128 "fatal"))
       = inl e2
    /\ e1 = GitError "Tag v9 not found for repository u"
    /\ class_of e1 = class_of e2.
Proof.
  eexists _, _. repeat split; reflexivity.
Qed.

(** ** States without a reference *)

(** C2, as the code has it: for a state without a reference, as_dict with
    verification switched off touches nothing; with verification on it
    still clones the state's URL and removes the working copy again, runs
    no lookup command, and returns the bare URL; when the clone fails, its
    GitError is raised. *)
Theorem as_dict_without_ref (w : world) (st : State.t) (u : string) :
  State.ref st = None ->
  State.url st = PStr u ->
  State.as_dict st false w = ([], inr [(State.name st, PStr u)])
  /\ (forall out, git_exec w u (clone_cmd u) = (0%Z, out) ->
        State.as_dict st true w
        = ([EvGit u (clone_cmd u); EvCleanup u], inr [(State.name st, PStr u)]))
  /\ (forall code out, git_exec w u (clone_cmd u) = (code, out) -> code <> 0%Z ->
        State.as_dict st true w
        = ([EvGit u (clone_cmd u)],
           inl (GitError (Repo.failed_msg (clone_cmd u) code out)))).
Proof.
  intros Hr Hu. unfold State.as_dict. rewrite Hr, Hu. repeat split.
  - intros out H.
    unfold Repo.with_repo, Repo.__init__, mbind, M_bind, bind.
    erewrite git_at_ok; [|reflexivity|exact H].
    unfold finally, State.verify_ref, try_except. rewrite Hr. reflexivity.
  - intros code out H Hc.
    unfold Repo.with_repo, Repo.__init__, mbind, M_bind, bind.
    erewrite git_at_failed; [|reflexivity|exact H|exact Hc]. reflexivity.
Qed.

Lemma as_dict_without_ref_witness :
  State.as_dict {| State.name := PStr "a"; State.url := PStr "u"; State.ref := None |}
    false (constant_world 0 "")
  = ([], inr [(PStr "a", PStr "u")]).
Proof.
  exact (proj1 (as_dict_without_ref (constant_world 0 "")
                  {| State.name := PStr "a"; State.url := PStr "u"; State.ref := None |}
                  "u" eq_refl eq_refl)).
Defined.

(** C2 as stated fails: serializing the reference-less state a with
    verification enabled clones its URL. *)
Lemma as_dict_without_ref_clones :
  fst (State.as_dict {| State.name := PStr "a"; State.url := PStr "u"; State.ref := None |}
         true (constant_world 0 ""))
  = [EvGit "u" (clone_cmd "u"); EvCleanup "u"]
  /\ fst (State.as_dict
            {| State.name := PStr "a"; State.url := PStr "u"; State.ref := None |}
            true (constant_world 0 "")) <> [].
Proof. split; [reflexivity | discriminate]. Qed.

(** ** The validator *)

Lemma popitem_singleton (kv : pyval * pyval) : Dict.popitem [kv] = Some (kv, []).
Proof. reflexivity. Qed.

Lemma verify_options_result (state_name : pyval) (opts : Dict.items_t) (st : State.t) :
  fst (StateTreeRepo.verify_options state_name opts) = inr st ->
  snd (StateTreeRepo.verify_options state_name opts) = Dict.remove (PStr "url") opts
  /\ Dict.get (PStr "url") opts = Some (State.url st)
  /\ State.name st = state_name.
Proof.
  unfold StateTreeRepo.verify_options.
  destruct (List.filter _ _); [|discriminate].
  destruct (Dict.get (PStr "url") opts) as [url|]; [|discriminate].
  destruct (1 <? _)%nat.
  - destruct (StateTreeRepo.join _ _); discriminate.
  - simpl. intros [= <-]. auto.
Qed.

(** C3, as the code has it: validating an entry runs no git command and
    opens no file, but it consumes its input.  A single-key mapping is left
    empty; when its value is a mapping of options that validates, the key
    url has been removed from that mapping.  Only an entry rejected for its
    number of keys is left as it was. *)
Theorem verify_state_consumes_entry (k v : pyval) :
  let out := StateTreeRepo._verify_state (PDict [(k, v)]) in
  StateTreeRepo.state_after out = PDict []
  /\ Forall is_print (StateTreeRepo.stdout out)
  /\ (forall opts st,
         v = PDict opts -> StateTreeRepo.result out = inr st ->
         StateTreeRepo.options_after out = Some (PDict (Dict.remove (PStr "url") opts))
         /\ Dict.get (PStr "url") opts = Some (State.url st))
  /\ (forall items,
         List.length items <> 1%nat ->
         StateTreeRepo.state_after (StateTreeRepo._verify_state (PDict items)) = PDict items).
Proof.
  cbn zeta. unfold StateTreeRepo._verify_state. cbn [StateTreeRepo.len List.length].
  cbn [Nat.eqb negb]. rewrite popitem_singleton.
  repeat split.
  - destruct v; try reflexivity.
    destruct (StateTreeRepo.verify_options k items); reflexivity.
  - destruct v; try (repeat constructor).
    destruct (StateTreeRepo.verify_options k items); repeat constructor.
  - subst v. pose proof (verify_options_result k opts st) as Hv.
    destruct (StateTreeRepo.verify_options k opts) as [r opts']. simpl in *.
    destruct (Hv H0) as (-> & _ & _). reflexivity.
  - subst v. pose proof (verify_options_result k opts st) as Hv.
    destruct (StateTreeRepo.verify_options k opts) as [r opts']. simpl in *.
    destruct (Hv H0) as (_ & Hu & _). exact Hu.
  - intros items Hlen. destruct (Nat.eqb_spec (List.length items) 1); [contradiction|].
    cbn [negb]. destruct (StateTreeRepo.join "," (Dict.keys items)); reflexivity.
Qed.

(** C3 as stated fails: validating the entry db leaves the entry empty,
    takes url out of its options and prints. *)
Lemma verify_state_mutates_its_input :
  let entry := PDict [(PStr "db", PDict [(PStr "url", PStr "u"); (PStr "tag", PStr "v1")])] in
  let out := StateTreeRepo._verify_state entry in
  StateTreeRepo.result out
  = inr {| State.name := PStr "db"; State.url := PStr "u";
           State.ref := Some (GitTag (PStr "v1")) |}
  /\ StateTreeRepo.state_after out = PDict []
  /\ StateTreeRepo.state_after out <> entry
  /\ StateTreeRepo.options_after out = Some (PDict [(PStr "tag", PStr "v1")])
  /\ StateTreeRepo.stdout out = [EvPrint entry].
Proof. cbn. repeat split; discriminate. Qed.

(** C8, as the code has it: a mapping whose keys are all strings and that
    does not have exactly one key is rejected with StateParseError, whose
    message lists the keys; the entry is left as it was. *)
Theorem verify_state_rejects_key_count (items : Dict.items_t) (keys : list string) :
  Dict.keys items = List.map PStr keys ->
  List.length items <> 1%nat ->
  StateTreeRepo.result (StateTreeRepo._verify_state (PDict items))
  = inl (StateParseError
           ("State should have options grouped under a single key, not "
              ++ Str.join "," keys)).
Proof.
  intros Hk Hlen. unfold StateTreeRepo._verify_state. cbn [StateTreeRepo.len].
  destruct (Nat.eqb_spec (List.length items) 1); [contradiction|]. cbn [negb].
  unfold StateTreeRepo.join. rewrite Hk, str_args_map. reflexivity.
Qed.

Lemma verify_state_rejects_key_count_witness :
  StateTreeRepo.result
    (StateTreeRepo._verify_state (PDict [(PStr "a", PStr "x"); (PStr "b", PStr "y")]))
  = inl (StateParseError "State should have options grouped under a single key, not a,b").
Proof.
  apply (verify_state_rejects_key_count
           [(PStr "a", PStr "x"); (PStr "b", PStr "y")] ["a"; "b"]).
  - reflexivity.
  - simpl. lia.
Defined.

(** C8 as stated fails: entries without exactly one top-level key that are
    not mappings, or whose keys are not strings, raise TypeError or
    AttributeError. *)
Lemma verify_state_other_exceptions :
  StateTreeRepo.result (StateTreeRepo._verify_state (PInt 5)) = inl TypeError
  /\ StateTreeRepo.result (StateTreeRepo._verify_state (PStr "ab")) = inl AttributeError
  /\ StateTreeRepo.result (StateTreeRepo._verify_state (PList [])) = inl AttributeError
  /\ StateTreeRepo.result
       (StateTreeRepo._verify_state (PDict [(PInt 1, PStr "a"); (PInt 2, PStr "b")]))
     = inl TypeError.
Proof. repeat split; reflexivity. Qed.

(** ** Export of an environment the scan did not populate *)

(** C10: exporting an environment that is not a key of the environments
    mapping runs no command and returns the serialization of the empty
    mapping; the lookup leaves the name behind with an empty list. *)
Theorem yaml_unknown_environment (w : world) (self : StateTreeRepo.t) (environment : string) :
  StateTreeRepo._environments self !! environment = None ->
  StateTreeRepo.yaml self environment w
  = ([], inr ({| StateTreeRepo.repo := StateTreeRepo.repo self;
                 StateTreeRepo._environments :=
                   <[environment := []]> (StateTreeRepo._environments self) |},
              Yaml.safe_dump (PDict [])))
  /\ Yaml.safe_dump (PDict []) = MappingNode [].
Proof.
  intros H. split; [|reflexivity].
  unfold StateTreeRepo.yaml, StateTreeRepo.touch. rewrite H.
  rewrite lookup_total_insert_eq. reflexivity.
Qed.

Lemma yaml_unknown_environment_witness :
  snd (StateTreeRepo.yaml
         {| StateTreeRepo.repo := {| Repo._url := "root" |};
            StateTreeRepo._environments := ∅ |} "base" (constant_world 0 ""))
  = inr ({| StateTreeRepo.repo := {| Repo._url := "root" |};
            StateTreeRepo._environments := <["base" := []]> ∅ |}, MappingNode []).
Proof.
  rewrite (proj1 (yaml_unknown_environment (constant_world 0 "")
                    {| StateTreeRepo.repo := {| Repo._url := "root" |};
                       StateTreeRepo._environments := ∅ |} "base" (lookup_empty _))).
  reflexivity.
Defined.

(** ** The scan *)

Lemma bind_inr {A B} (m : M A) (f : A -> M B) w tr b :
  bind m f w = (tr, inr b) ->
  exists tr1 a tr2, m w = (tr1, inr a) /\ f a w = (tr2, inr b) /\ tr = (tr1 ++ tr2)%list.
Proof.
  unfold bind. destruct (m w) as [tr1 [e|a]]; [discriminate|].
  destruct (f a w) as [tr2 r] eqn:Hf. intros [= <- ->]. eauto 6.
Qed.

Lemma bind_ok {A B} (m : M A) (f : A -> M B) w tr1 a :
  m w = (tr1, inr a) ->
  bind m f w = ((tr1 ++ fst (f a w))%list, snd (f a w)).
Proof. unfold bind. intros ->. destruct (f a w); reflexivity. Qed.

Lemma bind_err {A B} (m : M A) (f : A -> M B) w tr1 e :
  m w = (tr1, inl e) -> bind m f w = (tr1, inl e).
Proof. unfold bind. intros ->. reflexivity. Qed.

Lemma checkout_ok w url branch out :
  git_exec w url (checkout_cmd branch) = (0%Z, out) ->
  Repo.git {| Repo._url := url |} [PStr "checkout"; PStr branch] w
  = ([EvGit url (checkout_cmd branch)], inr out).
Proof. intros H. unfold Repo.git. simpl. now apply git_at_ok. Qed.

Lemma scan_entries_other_keys branch entries :
  forall envs w tr envs',
    StateTreeRepo.scan_entries branch entries envs w = (tr, inr envs') ->
    forall k, k <> branch -> envs' !! k = envs !! k.
Proof.
  induction entries as [|state rest IH]; intros envs w tr envs' H k Hk.
  - simpl in H. injection H as _ <-. reflexivity.
  - simpl in H. unfold mbind, M_bind in H.
    apply bind_inr in H as (tr1 & [] & tr2 & _ & H & _).
    destruct (StateTreeRepo.result (StateTreeRepo._verify_state state)) as [e|st];
      [discriminate|].
    rewrite (IH _ _ _ _ H k Hk).
    rewrite lookup_insert_ne by congruence.
    unfold StateTreeRepo.touch. destruct (envs !! branch); [reflexivity|].
    now rewrite lookup_insert_ne by congruence.
Qed.

Lemma scan_branch_absent w url branch envs out :
  git_exec w url (checkout_cmd branch) = (0%Z, out) ->
  manifest w url branch = Absent ->
  StateTreeRepo.scan_branch {| Repo._url := url |} branch envs w
  = ([EvGit url (checkout_cmd branch); EvOpen url], inr envs).
Proof.
  intros Hc Hm. unfold StateTreeRepo.scan_branch, mbind, M_bind.
  erewrite bind_ok by (now apply checkout_ok; eauto).
  unfold try_except, StateTreeRepo.load_manifest, mbind, M_bind, bind, emit, ask.
  simpl. rewrite Hm. reflexivity.
Qed.

Lemma scan_branch_undecodable w url branch envs out msg :
  git_exec w url (checkout_cmd branch) = (0%Z, out) ->
  manifest w url branch = Undecodable msg ->
  StateTreeRepo.scan_branch {| Repo._url := url |} branch envs w
  = ([EvGit url (checkout_cmd branch); EvOpen url],
     inl (StateParseError (parse_error_msg branch msg))).
Proof.
  intros Hc Hm. unfold StateTreeRepo.scan_branch, mbind, M_bind.
  erewrite bind_ok by (now apply checkout_ok; eauto).
  unfold try_except, StateTreeRepo.load_manifest, mbind, M_bind, bind, emit, ask.
  simpl. rewrite Hm. reflexivity.
Qed.

Lemma scan_shared_other_keys branch entries :
  forall objects envs w tr envs',
    StateTreeRepo.scan_shared branch objects entries envs w = (tr, inr envs') ->
    forall k, k <> branch -> envs' !! k = envs !! k.
Proof.
  induction entries as [|state rest IH]; intros objects envs w tr envs' H k Hk.
  - simpl in H. injection H as _ <-. reflexivity.
  - simpl in H. unfold mbind, M_bind in H.
    apply bind_inr in H as (tr1 & [] & tr2 & _ & H & _).
    destruct (StateTreeRepo.shared_result (StateTreeRepo.verify_shared objects state))
      as [e|st]; [discriminate|].
    rewrite (IH _ _ _ _ _ H k Hk).
    rewrite lookup_insert_ne by congruence.
    unfold StateTreeRepo.touch. destruct (envs !! branch); [reflexivity|].
    now rewrite lookup_insert_ne by congruence.
Qed.

(** a branch that is scanned without an error changes no other key, leaves
    the mapping alone unless its manifest decodes, and has no manifest that
    raises anything but FileNotFoundError *)
Lemma scan_branch_inr w url branch envs tr envs' :
  StateTreeRepo.scan_branch {| Repo._url := url |} branch envs w = (tr, inr envs') ->
  (forall k, k <> branch -> envs' !! k = envs !! k)
  /\ (envs' = envs \/ exists d, manifest w url branch = Decoded d)
  /\ (forall msg, manifest w url branch <> Undecodable msg)
  /\ (forall e, manifest w url branch = Raises e -> e = FileNotFoundError).
Proof.
  unfold StateTreeRepo.scan_branch, mbind, M_bind. intros H.
  apply bind_inr in H as (tr1 & out & tr2 & _ & H & _).
  unfold try_except, StateTreeRepo.load_manifest, mbind, M_bind, bind, emit, ask in H.
  simpl in H. destruct (manifest w url branch) as [|msg|e|d]; simpl in H.
  - injection H as _ <-.
    split; [reflexivity | split; [now left | split; [discriminate | discriminate]]].
  - discriminate.
  - destruct e; try discriminate. injection H as _ <-.
    split; [reflexivity | split; [now left | split; [discriminate | now intros e [= <-]]]].
  - split; [|split; [right; eauto | split; [discriminate | discriminate]]].
    destruct d as [v|objects entries].
    + destruct (StateTreeRepo.iter v) as [e|entries]; simpl in H.
      { destruct e; try discriminate. now injection H as _ <-. }
      destruct (StateTreeRepo.scan_entries branch entries envs w) as [tr3 [e|envs3]] eqn:Hs.
      * destruct e; try discriminate. now injection H as _ <-.
      * injection H as _ <-. intros k Hk. eapply scan_entries_other_keys; eauto.
    + destruct (StateTreeRepo.scan_shared branch objects entries envs w)
        as [tr3 [e|envs3]] eqn:Hs.
      * destruct e; try discriminate. now injection H as _ <-.
      * injection H as _ <-. intros k Hk. eapply scan_shared_other_keys; eauto.
Qed.

Lemma scan_branches_inr w url branches :
  forall envs tr envs',
    StateTreeRepo.scan_branches {| Repo._url := url |} branches envs w = (tr, inr envs') ->
    (forall k, manifest w url k = Absent -> envs' !! k = envs !! k)
    /\ (forall b msg, In b branches -> manifest w url b <> Undecodable msg)
    /\ (forall b e, In b branches -> manifest w url b = Raises e -> e = FileNotFoundError).
Proof.
  induction branches as [|b rest IH]; intros envs tr envs' H.
  - simpl in H. injection H as _ <-.
    split; [reflexivity | split; [intros ? ? [] | intros ? ? []]].
  - simpl in H. unfold mbind, M_bind in H.
    apply bind_inr in H as (tr1 & envs1 & tr2 & Hb & Hrest & _).
    apply scan_branch_inr in Hb as (Hother & Hsame & Hdec & Hraise).
    apply IH in Hrest as (IHk & IHd & IHr). split; [|split].
    + intros k Hk. rewrite (IHk k Hk).
      destruct (String.eqb_spec k b) as [->|Hne]; [|auto].
      destruct Hsame as [->|[d Hd]]; [reflexivity | congruence].
    + intros b' msg [<-|Hin]; [apply Hdec | now apply IHd].
    + intros b' e [<-|Hin]; [apply Hraise | now apply IHr].
Qed.

Lemma scan_branches_app w url pre :
  forall envs tr envs' rest,
    StateTreeRepo.scan_branches {| Repo._url := url |} pre envs w = (tr, inr envs') ->
    StateTreeRepo.scan_branches {| Repo._url := url |} (pre ++ rest)%list envs w
    = ((tr ++ fst (StateTreeRepo.scan_branches {| Repo._url := url |} rest envs' w))%list,
       snd (StateTreeRepo.scan_branches {| Repo._url := url |} rest envs' w)).
Proof.
  induction pre as [|b pre IH]; intros envs tr envs' rest H.
  - simpl in H. injection H as <- <-. simpl.
    now destruct (StateTreeRepo.scan_branches _ rest envs w).
  - simpl in H. unfold mbind, M_bind in H.
    apply bind_inr in H as (tr1 & envs1 & tr2 & Hb & Hrest & ->).
    simpl. unfold mbind, M_bind. rewrite (bind_ok _ _ _ _ _ Hb).
    rewrite (IH _ _ _ rest Hrest). simpl. now rewrite app_assoc.
Qed.

Lemma Repo_init_inr w url tr r :
  Repo.__init__ (PStr url) w = (tr, inr r) -> r = {| Repo._url := url |}.
Proof.
  unfold Repo.__init__, mbind, M_bind. intros H.
  apply bind_inr in H as (? & ? & ? & _ & H & _). now injection H as _ <-.
Qed.

Lemma scan_branch_raises w url branch envs out e :
  git_exec w url (checkout_cmd branch) = (0%Z, out) ->
  manifest w url branch = Raises e ->
  (forall msg, e <> YAMLError msg) ->
  e <> FileNotFoundError ->
  StateTreeRepo.scan_branch {| Repo._url := url |} branch envs w
  = ([EvGit url (checkout_cmd branch); EvOpen url], inl e).
Proof.
  intros Hc Hm Hy Hf. unfold StateTreeRepo.scan_branch, mbind, M_bind.
  erewrite bind_ok by (now apply checkout_ok; eauto).
  unfold try_except, StateTreeRepo.load_manifest, mbind, M_bind, bind, emit, ask.
  simpl. rewrite Hm. simpl.
  destruct e; try reflexivity; [now destruct (Hy msg) | contradiction].
Qed.

Lemma init_aborts w url tr0 tr1 tr2 tr3 pre branch post envs e :
  Repo.__init__ (PStr url) w = (tr0, inr {| Repo._url := url |}) ->
  Repo.branches {| Repo._url := url |} w = (tr1, inr (pre ++ branch :: post)%list) ->
  StateTreeRepo.scan_branches {| Repo._url := url |} pre ∅ w = (tr2, inr envs) ->
  StateTreeRepo.scan_branch {| Repo._url := url |} branch envs w = (tr3, inl e) ->
  StateTreeRepo.__init__ (PStr url) w = ((tr0 ++ tr1 ++ tr2 ++ tr3)%list, inl e).
Proof.
  intros Hr Hb Hs He.
  unfold StateTreeRepo.__init__, mbind, M_bind.
  rewrite (bind_ok _ _ _ _ _ Hr).
  unfold StateTreeRepo._scan, mbind, M_bind. simpl.
  rewrite (bind_ok _ _ _ _ _ Hb).
  assert (Hs' : StateTreeRepo.scan_branches {| Repo._url := url |}
                  (pre ++ branch :: post)%list ∅ w
                = ((tr2 ++ tr3)%list, inl e)).
  { rewrite (scan_branches_app _ _ _ _ _ _ (branch :: post) Hs). simpl.
    unfold mbind, M_bind.
    now rewrite (bind_err _ _ _ _ _ He). }
  rewrite (bind_err _ _ _ _ _ Hs'). reflexivity.
Qed.

(** C7, as the code has it: a branch without a manifest file adds no key to
    the environments mapping and the scan goes on with the next branch; a
    branch whose manifest makes the decoder raise yaml.YAMLError makes the
    construction of the StateTreeRepo raise StateParseError with the message
    naming that branch; a manifest whose reading or decoding raises any
    other exception makes the construction raise that very exception,
    without the name of the branch; and whenever the manifest of some listed
    branch raises anything but FileNotFoundError the caller gets no object,
    hence no environments mapping. *)
Theorem scan_skips_absent_and_aborts_on_undecodable (w : world) (url : string) :
  (forall tr self branch,
      StateTreeRepo.__init__ (PStr url) w = (tr, inr self) ->
      manifest w url branch = Absent ->
      StateTreeRepo._environments self !! branch = None)
  /\ (forall branch rest envs out,
         git_exec w url (checkout_cmd branch) = (0%Z, out) ->
         manifest w url branch = Absent ->
         StateTreeRepo.scan_branches {| Repo._url := url |} (branch :: rest) envs w
         = ((EvGit url (checkout_cmd branch) :: EvOpen url
               :: fst (StateTreeRepo.scan_branches {| Repo._url := url |} rest envs w)),
            snd (StateTreeRepo.scan_branches {| Repo._url := url |} rest envs w)))
  /\ (forall tr0 tr1 tr2 pre branch post envs out msg,
         Repo.__init__ (PStr url) w = (tr0, inr {| Repo._url := url |}) ->
         Repo.branches {| Repo._url := url |} w = (tr1, inr (pre ++ branch :: post)%list) ->
         StateTreeRepo.scan_branches {| Repo._url := url |} pre ∅ w = (tr2, inr envs) ->
         git_exec w url (checkout_cmd branch) = (0%Z, out) ->
         manifest w url branch = Undecodable msg ->
         StateTreeRepo.__init__ (PStr url) w
         = ((tr0 ++ tr1 ++ tr2 ++ [EvGit url (checkout_cmd branch); EvOpen url])%list,
            inl (StateParseError (parse_error_msg branch msg))))
  /\ (forall tr0 tr1 tr2 pre branch post envs out e,
         Repo.__init__ (PStr url) w = (tr0, inr {| Repo._url := url |}) ->
         Repo.branches {| Repo._url := url |} w = (tr1, inr (pre ++ branch :: post)%list) ->
         StateTreeRepo.scan_branches {| Repo._url := url |} pre ∅ w = (tr2, inr envs) ->
         git_exec w url (checkout_cmd branch) = (0%Z, out) ->
         manifest w url branch = Raises e ->
         (forall msg, e <> YAMLError msg) ->
         e <> FileNotFoundError ->
         StateTreeRepo.__init__ (PStr url) w
         = ((tr0 ++ tr1 ++ tr2 ++ [EvGit url (checkout_cmd branch); EvOpen url])%list,
            inl e))
  /\ (forall tr self tr1 branches branch,
         StateTreeRepo.__init__ (PStr url) w = (tr, inr self) ->
         Repo.branches {| Repo._url := url |} w = (tr1, inr branches) ->
         In branch branches ->
         (forall msg, manifest w url branch <> Undecodable msg)
         /\ (forall e, manifest w url branch = Raises e -> e = FileNotFoundError)).
Proof.
  split; [|split; [|split; [|split]]].
  - intros tr self branch H Hm.
    unfold StateTreeRepo.__init__, mbind, M_bind in H.
    apply bind_inr in H as (tr0 & r & tr' & Hr & H & _).
    apply Repo_init_inr in Hr as ->.
    unfold StateTreeRepo._scan, mbind, M_bind in H. simpl in H.
    apply bind_inr in H as (tr1 & branches & tr2 & _ & H & _).
    apply bind_inr in H as (tr3 & envs & tr4 & Hs & H & _).
    injection H as _ <-. simpl.
    apply scan_branches_inr in Hs as (Hk & _). rewrite (Hk _ Hm). apply lookup_empty.
  - intros branch rest envs out Hc Hm. simpl. unfold mbind, M_bind.
    rewrite (bind_ok _ _ _ _ _ (scan_branch_absent _ _ _ envs _ Hc Hm)). reflexivity.
  - intros tr0 tr1 tr2 pre branch post envs out msg Hr Hb Hs Hc Hm.
    exact (init_aborts _ _ _ _ _ _ _ _ _ _ _ Hr Hb Hs
             (scan_branch_undecodable _ _ _ envs _ _ Hc Hm)).
  - intros tr0 tr1 tr2 pre branch post envs out e Hr Hb Hs Hc Hm Hy Hf.
    exact (init_aborts _ _ _ _ _ _ _ _ _ _ _ Hr Hb Hs
             (scan_branch_raises _ _ _ envs _ _ Hc Hm Hy Hf)).
  - intros tr self tr1 branches branch H Hb Hin.
    unfold StateTreeRepo.__init__, mbind, M_bind in H.
    apply bind_inr in H as (tr0 & r & tr' & Hr & H & _).
    apply Repo_init_inr in Hr as ->.
    unfold StateTreeRepo._scan, mbind, M_bind in H. simpl in H.
    apply bind_inr in H as (tr2 & branches' & tr3 & Hb' & H & _).
    rewrite Hb in Hb'. injection Hb' as _ <-.
    apply bind_inr in H as (tr4 & envs & tr5 & Hs & _).
    apply scan_branches_inr in Hs as (_ & Hd & Hr).
    split; [intros msg; now apply Hd | intros e; now apply Hr].
Qed.

Lemma scan_skips_absent_and_aborts_on_undecodable_witness :
  snd (StateTreeRepo.__init__ (PStr "root") root_world)
  = inl (StateParseError
           "Could no parse states.yaml for branch broken: mapping values are not allowed here").
Proof.
  erewrite (proj1 (proj2 (proj2 (scan_skips_absent_and_aborts_on_undecodable
                                   root_world "root")))
              _ _ _ ["master"; "base"] "broken" [] _ "" _).
  - reflexivity.
  - reflexivity.
  - reflexivity.
  - reflexivity.
  - reflexivity.
  - reflexivity.
Defined.

(** C7, the claim as the specification words it: a manifest that exists
    and fails to decode, here with UnicodeDecodeError, does not make the
    scan raise a parse error that names the branch: the construction raises
    the UnicodeDecodeError itself. *)
Lemma scan_decode_failure_is_not_a_parse_error :
  manifest garbled_world "root" "latin1" = Raises UnicodeDecodeError
  /\ StateTreeRepo.__init__ (PStr "root") garbled_world
     = ([EvGit "root" (clone_cmd "root");
         EvGit "root" ["git"; "branch"; "--list"; "--all"];
         EvGit "root" (checkout_cmd "latin1");
         EvOpen "root"],
        inl UnicodeDecodeError)
  /\ (forall msg, snd (StateTreeRepo.__init__ (PStr "root") garbled_world)
                  <> inl (StateParseError msg)).
Proof.
  split; [reflexivity | split; [reflexivity | discriminate]].
Qed.

(** ** The stable sort *)

Section SortedFacts.
Context {A : Type} (ltb : A -> A -> bool) (P : A -> Prop).

Hypothesis ltb_asym : forall a b, P a -> P b -> ltb a b = true -> ltb b a = false.
Hypothesis ltb_negtrans :
  forall a b c, P a -> P b -> P c -> ltb b a = false -> ltb c b = false -> ltb c a = false.

Lemma insert_Permutation (x : A) (l : list A) : Permutation (x :: l) (Py.insert ltb x l).
Proof.
  induction l as [|y l IH]; simpl; [reflexivity|].
  destruct (ltb y x); [|reflexivity].
  rewrite perm_swap. now apply perm_skip.
Qed.

Lemma sorted_Permutation (l : list A) : Permutation l (Py.sorted ltb l).
Proof.
  induction l as [|x l IH]; simpl; [reflexivity|].
  rewrite <- insert_Permutation. now apply perm_skip.
Qed.

Lemma insert_StronglySorted (x : A) (l : list A) :
  P x -> Forall P l ->
  StronglySorted (not_above ltb) l -> StronglySorted (not_above ltb) (Py.insert ltb x l).
Proof.
  intros Px Pl Hs. induction Hs as [|y l Hs IH Hy]; simpl.
  - repeat constructor.
  - apply Forall_cons_iff in Pl as [Py Pl].
    destruct (ltb y x) eqn:Hyx.
    + constructor; [now apply IH|].
      rewrite <- insert_Permutation. constructor; [|exact Hy].
      unfold not_above. now apply ltb_asym.
    + constructor; [now constructor|].
      constructor; [exact Hyx|].
      rewrite List.Forall_forall in *. intros z Hz.
      unfold not_above in *. apply (ltb_negtrans x y z); auto.
Qed.

Lemma sorted_StronglySorted (l : list A) :
  Forall P l -> StronglySorted (not_above ltb) (Py.sorted ltb l).
Proof.
  induction l as [|x l IH]; intros Pl; simpl; [constructor|].
  apply Forall_cons_iff in Pl as [Px Pl].
  apply insert_StronglySorted; auto.
  now rewrite <- sorted_Permutation.
Qed.

(** two sorted arrangements of the same elements are equal when elements
    that do not order are equal *)
Lemma StronglySorted_Permutation_eq (l1 : list A) :
  forall l2,
    (forall a b, In a l1 -> In b l1 -> not_above ltb a b -> not_above ltb b a -> a = b) ->
    StronglySorted (not_above ltb) l1 -> StronglySorted (not_above ltb) l2 ->
    Permutation l1 l2 -> l1 = l2.
Proof.
  induction l1 as [|a l1 IH]; intros l2 Hanti H1 H2 Hp.
  - now apply Permutation_nil in Hp.
  - destruct l2 as [|b l2]; [now apply Permutation_sym, Permutation_nil in Hp|].
    apply StronglySorted_inv in H1 as [H1 Ha], H2 as [H2 Hb].
    rewrite List.Forall_forall in Ha, Hb.
    assert (Hab : a = b).
    { assert (Hin_b : In b (a :: l1)) by (rewrite Hp; now left).
      assert (Hin_a : In a (b :: l2)) by (rewrite <- Hp; now left).
      destruct Hin_b as [->|Hin_b]; [reflexivity|].
      destruct Hin_a as [->|Hin_a]; [reflexivity|].
      apply Hanti; [now left | now right | now apply Ha | now apply Hb]. }
    subst b. f_equal. apply IH; auto.
    + intros x y Hx Hy. apply Hanti; now right.
    + now apply Permutation_cons_inv in Hp.
Qed.

Lemma sorted_Permutation_eq (l1 l2 : list A) :
  Forall P l1 ->
  (forall a b, In a l1 -> In b l1 -> ltb a b = false -> ltb b a = false -> a = b) ->
  Permutation l1 l2 ->
  Py.sorted ltb l1 = Py.sorted ltb l2.
Proof.
  intros Pl Hanti Hp.
  apply StronglySorted_Permutation_eq.
  - intros a b Ha Hb Hab Hba. rewrite <- sorted_Permutation in Ha, Hb.
    now apply Hanti.
  - now apply sorted_StronglySorted.
  - apply sorted_StronglySorted. now rewrite <- Hp.
  - now rewrite <- !sorted_Permutation.
Qed.

End SortedFacts.

Lemma String_compare_OT (a b : string) : String_as_OT.compare a b = String.compare a b.
Proof.
  revert b; induction a as [|c a IH]; destruct b as [|d b]; reflexivity.
Qed.

Lemma String_ltb_lt (a b : string) : String.ltb a b = true <-> String_as_OT.lt a b.
Proof.
  unfold String.ltb, String_as_OT.lt.
  change (String_as_OT.compare a b) with (String.compare a b).
  destruct (String.compare a b); split; congruence.
Qed.

Lemma String_ltb_asym (a b : string) : String.ltb a b = true -> String.ltb b a = false.
Proof.
  intros H. apply String_ltb_lt in H.
  destruct (String.ltb b a) eqn:Hba; [|reflexivity].
  apply String_ltb_lt in Hba. exfalso.
  apply (StrictOrder_Irreflexive a). now transitivity b.
Qed.

Lemma String_ltb_total (a b : string) :
  String.ltb a b = false -> String.ltb b a = false -> a = b.
Proof.
  unfold String.ltb. rewrite (String.compare_antisym b a).
  destruct (String.compare a b) eqn:H; simpl; try discriminate.
  intros _ _. now apply String.compare_eq_iff.
Qed.

Lemma String_ltb_negtrans (a b c : string) :
  String.ltb b a = false -> String.ltb c b = false -> String.ltb c a = false.
Proof.
  intros Hba Hcb. destruct (String.ltb c a) eqn:Hca; [|reflexivity].
  destruct (String.ltb a b) eqn:Hab.
  - apply String_ltb_lt in Hca, Hab.
    assert (Hcb' : String.ltb c b = true) by (apply String_ltb_lt; now transitivity a).
    congruence.
  - rewrite (String_ltb_total a b Hab Hba) in Hca. congruence.
Qed.

(** ** The exporter *)

Lemma key_eqb_eq (a b : pyval) : Py.key_eqb a b = true -> a = b.
Proof.
  destruct a, b; simpl; try discriminate; intros H.
  - reflexivity.
  - apply Z.eqb_eq in H. now subst.
  - apply String.eqb_eq in H. now subst.
Qed.

Lemma get_setitem (n k v : pyval) (d : Dict.items_t) :
  Dict.get n (Dict.setitem k v d)
  = if Py.key_eqb k n then Some v else Dict.get n d.
Proof.
  induction d as [|[k' x'] d IH]; simpl.
  - reflexivity.
  - destruct (Py.key_eqb k' k) eqn:Hk; simpl.
    + apply key_eqb_eq in Hk. subst k'. now destruct (Py.key_eqb k n).
    + rewrite IH. destruct (Py.key_eqb k n) eqn:Hn; [|reflexivity].
      apply key_eqb_eq in Hn. subst n. now rewrite Hk.
Qed.

Lemma get_merged (n : pyval) (states : list State.t) :
  forall acc,
    Dict.get n (merged states acc)
    = match last_named n states with
      | Some s => Some (exported_value s)
      | None => Dict.get n acc
      end.
Proof.
  unfold merged, last_named.
  induction states as [|s states IH] using rev_ind; intros acc; [reflexivity|].
  rewrite !fold_left_app. simpl. rewrite get_setitem.
  destruct (Py.key_eqb (State.name s) n); [reflexivity | apply IH].
Qed.

Lemma as_dict_inr (s : State.t) (verify_refs : bool) w tr d :
  State.as_dict s verify_refs w = (tr, inr d) -> d = [(State.name s, exported_value s)].
Proof.
  unfold State.as_dict, exported_value, mbind, M_bind. intros H.
  apply bind_inr in H as (? & ? & ? & _ & H & _).
  destruct (State.ref s); now injection H as _ <-.
Qed.

Lemma export_states_inr (states : list State.t) :
  forall acc w tr d,
    StateTreeRepo.export_states states acc w = (tr, inr d) -> d = merged states acc.
Proof.
  induction states as [|s states IH]; intros acc w tr d H; simpl in H.
  - now injection H as _ <-.
  - unfold mbind, M_bind in H.
    apply bind_inr in H as (? & d1 & ? & H1 & H & _).
    apply as_dict_inr in H1 as ->. apply IH in H. subst d. reflexivity.
Qed.

Lemma touch_lookup_total (k : string) (envs : gmap string (list State.t)) :
  StateTreeRepo.touch k envs !!! k = envs !!! k.
Proof.
  unfold StateTreeRepo.touch. destruct (envs !! k) eqn:H; [reflexivity|].
  rewrite lookup_total_insert_eq. unfold lookup_total, map_lookup_total.
  now rewrite H.
Qed.

Lemma yaml_unfold (self : StateTreeRepo.t) (environment : string) w :
  StateTreeRepo.yaml self environment w
  = bind (StateTreeRepo.export_states
            (Py.sorted State.__lt__ (states_of self environment)) [])
      (fun _yaml =>
         mret ({| StateTreeRepo.repo := StateTreeRepo.repo self;
                  StateTreeRepo._environments :=
                    StateTreeRepo.touch environment (StateTreeRepo._environments self) |},
               Yaml.safe_dump (PDict _yaml))) w.
Proof.
  unfold StateTreeRepo.yaml, states_of. now rewrite touch_lookup_total.
Qed.

Lemma exported_inr (self : StateTreeRepo.t) (environment : string) w doc :
  exported self environment w = inr doc ->
  doc = Yaml.safe_dump
          (PDict (merged (Py.sorted State.__lt__ (states_of self environment)) [])).
Proof.
  unfold exported. rewrite yaml_unfold. unfold bind.
  destruct (StateTreeRepo.export_states _ [] w) as [tr [e|d]] eqn:H; simpl; [discriminate|].
  apply export_states_inr in H. subst d. now intros [= <-].
Qed.

(** C4, as the code has it: when the export of an environment succeeds, the
    document is the dump of a mapping that binds every state name to the
    data of the state that comes last under that name in the order sorted by
    canonical rendering (not in the order of the manifest). *)
Theorem export_binds_last_in_sorted_order
  (w : world) (self : StateTreeRepo.t) (environment : string) (doc : node) :
  exported self environment w = inr doc ->
  exists _yaml,
    doc = Yaml.safe_dump (PDict _yaml)
    /\ forall n,
        Dict.get n _yaml
        = option_map exported_value
            (last_named n (Py.sorted State.__lt__ (states_of self environment))).
Proof.
  intros H. apply exported_inr in H. eexists. split; [exact H|].
  intros n. rewrite get_merged. now destruct (last_named n _).
Qed.

Lemma export_binds_last_in_sorted_order_witness :
  exists _yaml,
    MappingNode [(str_node "a", str_node "z")] = Yaml.safe_dump (PDict _yaml)
    /\ forall n,
        Dict.get n _yaml
        = option_map exported_value
            (last_named n
               (Py.sorted State.__lt__
                  (states_of (tree_of "base" [plain_state "a" "z"; plain_state "a" "b"])
                     "base"))).
Proof.
  exact (export_binds_last_in_sorted_order (constant_world 0 "ok")
           (tree_of "base" [plain_state "a" "z"; plain_state "a" "b"]) "base"
           (MappingNode [(str_node "a", str_node "z")]) eq_refl).
Defined.

(** C4 as stated fails: the manifest of base lists a with the URL z and
    then with the URL b; the exported document binds a to z, the data of
    the entry that came first. *)
Lemma export_keeps_first_manifest_entry :
  exists self,
    snd (StateTreeRepo.__init__ (PStr "root") duplicate_world) = inr self
    /\ states_of self "base" = [plain_state "a" "z"; plain_state "a" "b"]
    /\ exported self "base" duplicate_world
       = inr (MappingNode [(str_node "a", str_node "z")]).
Proof.
  eexists. split; [reflexivity|]. split; reflexivity.
Qed.

(** ** Order of the manifest *)

Lemma lt_asym (a b : State.t) : State.__lt__ a b = true -> State.__lt__ b a = false.
Proof. apply String_ltb_asym. Qed.

Lemma lt_negtrans (a b c : State.t) :
  State.__lt__ b a = false -> State.__lt__ c b = false -> State.__lt__ c a = false.
Proof. apply String_ltb_negtrans. Qed.

(** C5, as the code has it: when states with the same canonical rendering
    are the same state, exporting a permutation of the states of an
    environment gives the same commands, and the same document or the same
    exception. *)
Theorem export_of_permutation
  (w : world) (self1 self2 : StateTreeRepo.t) (environment : string) :
  Permutation (states_of self1 environment) (states_of self2 environment) ->
  (forall a b, In a (states_of self1 environment) -> In b (states_of self1 environment) ->
               State.__repr__ a = State.__repr__ b -> a = b) ->
  exported self1 environment w = exported self2 environment w
  /\ fst (StateTreeRepo.yaml self1 environment w)
     = fst (StateTreeRepo.yaml self2 environment w).
Proof.
  intros Hp Hinj.
  assert (Hs : Py.sorted State.__lt__ (states_of self1 environment)
               = Py.sorted State.__lt__ (states_of self2 environment)).
  { apply (sorted_Permutation_eq State.__lt__ (fun _ => True)).
    - intros a b _ _. apply lt_asym.
    - intros a b c _ _ _. apply lt_negtrans.
    - apply List.Forall_forall. auto.
    - intros a b Ha Hb Hab Hba. apply Hinj; auto. now apply String_ltb_total.
    - exact Hp. }
  unfold exported. rewrite !yaml_unfold, Hs. unfold bind.
  destruct (StateTreeRepo.export_states _ [] w) as [tr [e|d]]; split; reflexivity.
Qed.

Lemma export_of_permutation_witness :
  exported (tree_of "base" [plain_state "b" "v"; plain_state "a" "u"]) "base"
    (constant_world 0 "ok")
  = exported (tree_of "base" [plain_state "a" "u"; plain_state "b" "v"]) "base"
      (constant_world 0 "ok").
Proof.
  apply (export_of_permutation (constant_world 0 "ok")
           (tree_of "base" [plain_state "b" "v"; plain_state "a" "u"])
           (tree_of "base" [plain_state "a" "u"; plain_state "b" "v"]) "base").
  - apply perm_swap.
  - intros a b [<-|[<-|[]]] [<-|[<-|[]]]; try reflexivity; discriminate.
Defined.

(** C5 as stated fails: two entries for the state a validate to states with
    the same canonical rendering and different data; the stable sort keeps
    them in the order of the manifest, so the two orders export different
    documents. *)
Lemma export_depends_on_order_of_twins :
  StateTreeRepo.result
    (StateTreeRepo._verify_state
       (PDict [(PStr "a", PDict [(PStr "url", PStr "u) [Tag: x"); (PStr "branch", PStr "y")])]))
  = inr twin_branch
  /\ StateTreeRepo.result
       (StateTreeRepo._verify_state
          (PDict [(PStr "a", PDict [(PStr "url", PStr "u"); (PStr "tag", PStr "x) [Branch: y")])]))
     = inr twin_tag
  /\ State.__repr__ twin_branch = State.__repr__ twin_tag
  /\ exported (tree_of "base" [twin_branch; twin_tag]) "base" (constant_world 0 "ok")
     = inr (MappingNode
              [(str_node "a",
                MappingNode [(str_node "tag", str_node "x) [Branch: y");
                             (str_node "url", str_node "u")])])
  /\ exported (tree_of "base" [twin_tag; twin_branch]) "base" (constant_world 0 "ok")
     = inr (MappingNode
              [(str_node "a",
                MappingNode [(str_node "branch", str_node "y");
                             (str_node "url", str_node "u) [Tag: x")])]).
Proof. repeat split; reflexivity. Qed.

(** ** Order of the keys in the document *)

Lemma keys_setitem (Q : pyval -> Prop) (k v : pyval) (d : Dict.items_t) :
  Q k -> Forall Q (Dict.keys d) -> Forall Q (Dict.keys (Dict.setitem k v d)).
Proof.
  intros Hk. induction d as [|[k' x'] d IH]; simpl; intros Hd.
  - now constructor.
  - apply Forall_cons_iff in Hd as [Hk' Hd].
    destruct (Py.key_eqb k' k); simpl; constructor; auto.
Qed.

Lemma keys_merged (Q : pyval -> Prop) (states : list State.t) :
  forall acc,
    Forall (fun s => Q (State.name s)) states ->
    Forall Q (Dict.keys acc) -> Forall Q (Dict.keys (merged states acc)).
Proof.
  unfold merged. induction states as [|s states IH]; intros acc Hs Hacc; simpl; [exact Hacc|].
  apply Forall_cons_iff in Hs as [Hn Hs]. apply IH; [exact Hs|].
  now apply keys_setitem.
Qed.

Lemma represent_PDict (d : Dict.items_t) :
  Yaml.represent (PDict d)
  = MappingNode
      (List.map snd
         (Yaml.mapping_order
            (List.map (fun kx => (fst kx, (Yaml.represent (fst kx), Yaml.represent (snd kx))))
               d))).
Proof.
  simpl. do 3 f_equal. induction d as [|[k x] d IH]; simpl; [reflexivity | now rewrite IH].
Qed.

Lemma str_keys_sortable (keys : list pyval) :
  Forall (fun k => Py.is_str k = true) keys -> Yaml.sortable keys = true.
Proof.
  intros H. unfold Yaml.sortable. apply orb_true_iff. right.
  apply forallb_forall. now apply List.Forall_forall.
Qed.

Lemma is_str_PStr (k : pyval) : Py.is_str k = true -> PStr (str_of k) = k.
Proof. destruct k; simpl; try discriminate. reflexivity. Qed.

Lemma sorted_str_items {B} (items : list (pyval * B)) :
  Forall (fun k => Py.is_str k = true) (List.map fst items) ->
  StronglySorted (fun a b => String.ltb b a = false)
    (List.map str_of (List.map fst (Py.sorted Yaml.item_ltb items))).
Proof.
  intros Hstr.
  pose (Pstr := fun it : pyval * B => Py.is_str (fst it) = true).
  assert (Hs : StronglySorted (not_above Yaml.item_ltb) (Py.sorted Yaml.item_ltb items)).
  { apply (sorted_StronglySorted Yaml.item_ltb Pstr).
    - intros [a xa] [b xb]. unfold Pstr, Yaml.item_ltb. simpl.
      destruct a, b; simpl; try discriminate. intros _ _. apply String_ltb_asym.
    - intros [a xa] [b xb] [c xc]. unfold Pstr, Yaml.item_ltb. simpl.
      destruct a, b, c; simpl; try discriminate. intros _ _ _. apply String_ltb_negtrans.
    - apply List.Forall_forall. intros it Hit. unfold Pstr.
      rewrite List.Forall_forall in Hstr. apply Hstr. now apply in_map. }
  assert (Hp : Forall Pstr (Py.sorted Yaml.item_ltb items)).
  { rewrite <- (sorted_Permutation Yaml.item_ltb items).
    apply List.Forall_forall. intros it Hit. unfold Pstr.
    rewrite List.Forall_forall in Hstr. apply Hstr. now apply in_map. }
  induction Hs as [|it l Hs IH Hit]; simpl; [constructor|].
  apply Forall_cons_iff in Hp as [Pit Pl].
  constructor; [now apply IH|].
  rewrite List.Forall_forall in *. intros n Hn.
  apply in_map_iff in Hn as (k & <- & Hk). apply in_map_iff in Hk as (it' & <- & Hin).
  specialize (Hit _ Hin). specialize (Pl _ Hin).
  unfold not_above, Yaml.item_ltb, Pstr in *.
  destruct it as [a xa], it' as [b xb]; simpl in *.
  destruct a, b; simpl in *; try discriminate. exact Hit.
Qed.

(** C9, as the code has it: safe_dump is called with its default key
    sorting, so when the state names are strings the top-level keys of the
    document are the names in ascending order, whatever order the exporter
    inserted them in. *)
Theorem document_keys_sorted_by_name
  (w : world) (self : StateTreeRepo.t) (environment : string) (doc : node) :
  Forall (fun s => Py.is_str (State.name s) = true) (states_of self environment) ->
  exported self environment w = inr doc ->
  exists names,
    top_level_keys doc = List.map str_node names
    /\ StronglySorted (fun a b => String.ltb b a = false) names
    /\ Permutation (List.map PStr names)
         (Dict.keys (merged (Py.sorted State.__lt__ (states_of self environment)) [])).
Proof.
  intros Hnames H. apply exported_inr in H. subst doc.
  set (M := merged _ []).
  assert (HM : Forall (fun k => Py.is_str k = true) (Dict.keys M)).
  { apply keys_merged; [|constructor].
    now rewrite <- (sorted_Permutation State.__lt__ (states_of self environment)). }
  unfold Yaml.safe_dump. rewrite represent_PDict.
  set (L := List.map _ M).
  assert (HL : List.map fst L = Dict.keys M).
  { unfold L, Dict.keys. rewrite List.map_map. reflexivity. }
  unfold Yaml.mapping_order. rewrite HL, (str_keys_sortable _ HM).
  exists (List.map str_of (List.map fst (Py.sorted Yaml.item_ltb L))).
  assert (HS : forall it, In it (Py.sorted Yaml.item_ltb L) ->
                          Py.is_str (fst it) = true
                          /\ fst (snd it) = Yaml.represent (fst it)).
  { intros it Hit. rewrite <- (sorted_Permutation Yaml.item_ltb L) in Hit.
    unfold L in Hit. apply in_map_iff in Hit as ([k x] & <- & Hin). simpl. split; [|reflexivity].
    rewrite List.Forall_forall in HM. apply HM.
    unfold Dict.keys. now apply (in_map fst) in Hin. }
  split; [|split].
  - simpl. rewrite !List.map_map. apply map_ext_in. intros it Hit.
    destruct (HS it Hit) as [Hstr Hrep]. rewrite Hrep.
    destruct (fst it); simpl in *; try discriminate. reflexivity.
  - apply sorted_str_items. now rewrite HL.
  - rewrite List.map_map.
    rewrite (map_ext_in _ id).
    + rewrite List.map_id, <- HL.
      apply Permutation_map, Permutation_sym, sorted_Permutation.
    + intros k Hk. apply in_map_iff in Hk as (it & <- & Hit).
      apply is_str_PStr. now apply HS.
Qed.

Lemma document_keys_sorted_by_name_witness :
  exists names,
    top_level_keys (MappingNode [(str_node "db", str_node "u"); (str_node "db #2", str_node "v")])
    = List.map str_node names
    /\ StronglySorted (fun a b => String.ltb b a = false) names
    /\ Permutation (List.map PStr names)
         (Dict.keys
            (merged
               (Py.sorted State.__lt__
                  (states_of (tree_of "base" [plain_state "db" "u"; plain_state "db #2" "v"])
                     "base")) [])).
Proof.
  apply (document_keys_sorted_by_name (constant_world 0 "ok")
           (tree_of "base" [plain_state "db" "u"; plain_state "db #2" "v"]) "base").
  - repeat constructor.
  - reflexivity.
Defined.

(** C9 as stated fails: for the states db and db #2 the exporter inserts
    db #2 first (its rendering sorts first), and the document lists db
    first. *)
Lemma document_keys_not_in_insertion_order :
  let states := [plain_state "db" "u"; plain_state "db #2" "v"] in
  Dict.keys (merged (Py.sorted State.__lt__ states) []) = [PStr "db #2"; PStr "db"]
  /\ exported (tree_of "base" states) "base" (constant_world 0 "ok")
     = inr (MappingNode [(str_node "db", str_node "u"); (str_node "db #2", str_node "v")])
  /\ top_level_keys
       (MappingNode [(str_node "db", str_node "u"); (str_node "db #2", str_node "v")])
     <> List.map Yaml.represent (Dict.keys (merged (Py.sorted State.__lt__ states) [])).
Proof. cbn zeta. split; [reflexivity|]. split; [reflexivity | discriminate]. Qed.

(** ** Dumping and loading *)

Lemma to_Z_of_Z (z : Z) : Str.to_Z (Str.of_Z z) = Some z.
Proof.
  unfold Str.to_Z, Str.of_Z.
  rewrite NilZero.isi.
  - now rewrite DecimalZ.of_to.
  - destruct z; simpl; try discriminate.
    intros [= H]. now apply DecimalPos.Unsigned.to_uint_nonnil in H.
  - destruct z; simpl; try discriminate.
    intros [= H]. now apply DecimalPos.Unsigned.to_uint_nonnil in H.
Qed.

Lemma well_formed_PDict (items : Dict.items_t) :
  well_formed (PDict items) = true <->
  distinct (List.map fst items) = true
  /\ Forall (fun kx => Yaml.hashable (fst kx) = true /\ well_formed (snd kx) = true) items.
Proof.
  simpl. rewrite andb_true_iff. apply and_iff_compat_l.
  induction items as [|[k x] items IH].
  - split; [constructor | reflexivity].
  - rewrite !andb_true_iff, IH, Forall_cons_iff. simpl. tauto.
Qed.

Lemma canonical_PDict (items : Dict.items_t) :
  Yaml.canonical (PDict items)
  = PDict (Yaml.mapping_order
             (List.map (fun kx => (fst kx, Yaml.canonical (snd kx))) items)).
Proof.
  simpl. do 2 f_equal. induction items as [|[k x] items IH]; simpl;
    [reflexivity | now rewrite IH].
Qed.

Lemma construct_MappingNode (items : list (node * node)) :
  Yaml.construct (MappingNode items) = option_map PDict (Yaml.construct_items items []).
Proof.
  simpl. f_equal.
Qed.

Lemma construct_SequenceNode (l : list pyval) :
  Forall (fun x => Yaml.construct (Yaml.represent x) = Some (Yaml.canonical x)) l ->
  Yaml.construct (SequenceNode (List.map Yaml.represent l))
  = Some (PList (List.map Yaml.canonical l)).
Proof.
  intros H. simpl.
  induction H as [|x l Hx Hl IH]; simpl; [reflexivity|].
  rewrite Hx. simpl in IH.
  destruct ((fix each (l : list node) : option (list pyval) := _) (List.map Yaml.represent l));
    [|discriminate].
  injection IH as ->. reflexivity.
Qed.

Lemma insert_map_keys {B C} (g : pyval * B -> pyval * C) (x : pyval * B) (l : list (pyval * B)) :
  (forall it, fst (g it) = fst it) ->
  Py.insert Yaml.item_ltb (g x) (List.map g l) = List.map g (Py.insert Yaml.item_ltb x l).
Proof.
  intros Hg. induction l as [|y l IH]; simpl; [reflexivity|].
  unfold Yaml.item_ltb at 1 3. rewrite !Hg.
  destruct (Py.key_ltb (fst y) (fst x)); simpl; [now rewrite IH | reflexivity].
Qed.

Lemma mapping_order_map {B C} (g : pyval * B -> pyval * C) (l : list (pyval * B)) :
  (forall it, fst (g it) = fst it) ->
  Yaml.mapping_order (List.map g l) = List.map g (Yaml.mapping_order l).
Proof.
  intros Hg. unfold Yaml.mapping_order.
  rewrite List.map_map. rewrite (map_ext _ fst) by (intros; apply Hg).
  destruct (Yaml.sortable _); [|reflexivity].
  induction l as [|x l IH]; simpl; [reflexivity|].
  rewrite IH. now apply insert_map_keys.
Qed.

Lemma mapping_order_Permutation {B} (l : list (pyval * B)) :
  Permutation l (Yaml.mapping_order l).
Proof.
  unfold Yaml.mapping_order. destruct (Yaml.sortable _); [|reflexivity].
  apply sorted_Permutation.
Qed.

Lemma key_eqb_neq (a b : pyval) : a <> b -> Py.key_eqb a b = false.
Proof.
  intros H. destruct (Py.key_eqb a b) eqn:E; [|reflexivity].
  now apply key_eqb_eq in E.
Qed.

Lemma key_eqb_refl (k : pyval) : Yaml.hashable k = true -> Py.key_eqb k k = true.
Proof.
  destruct k; simpl; try discriminate; intros _;
    [reflexivity | apply Z.eqb_refl | apply String.eqb_refl].
Qed.

Lemma distinct_NoDup (keys : list pyval) :
  Forall (fun k => Yaml.hashable k = true) keys -> distinct keys = true -> List.NoDup keys.
Proof.
  induction keys as [|k keys IH]; intros Hh Hd; [constructor|].
  apply Forall_cons_iff in Hh as [Hk Hh].
  simpl in Hd. apply andb_true_iff in Hd as [Hn Hd].
  apply List.NoDup_cons; [|now apply IH].
  intros Hin. apply negb_true_iff in Hn.
  assert (existsb (Py.key_eqb k) keys = true); [|congruence].
  apply existsb_exists. exists k. split; [exact Hin | now apply key_eqb_refl].
Qed.

Lemma setitem_fresh (k v : pyval) (acc : Dict.items_t) :
  ~ In k (Dict.keys acc) -> Dict.setitem k v acc = (acc ++ [(k, v)])%list.
Proof.
  induction acc as [|[k' x'] acc IH]; simpl; intros Hn; [reflexivity|].
  rewrite key_eqb_neq by (intros ->; apply Hn; now left).
  f_equal. apply IH. intros Hin. apply Hn. now right.
Qed.

Lemma construct_hashable (k : pyval) :
  Yaml.hashable k = true -> Yaml.construct (Yaml.represent k) = Some k.
Proof.
  destruct k; simpl; try discriminate; intros _; [reflexivity | | reflexivity].
  now rewrite to_Z_of_Z.
Qed.

Lemma construct_items_spec (S : Dict.items_t) :
  forall acc,
    List.NoDup (Dict.keys acc ++ Dict.keys S)%list ->
    Forall (fun kx => Yaml.hashable (fst kx) = true
                      /\ Yaml.construct (Yaml.represent (snd kx))
                         = Some (Yaml.canonical (snd kx))) S ->
    Yaml.construct_items
      (List.map (fun kx => (Yaml.represent (fst kx), Yaml.represent (snd kx))) S) acc
    = Some (acc ++ List.map (fun kx => (fst kx, Yaml.canonical (snd kx))) S)%list.
Proof.
  induction S as [|[k x] S IH]; intros acc Hnd HS; simpl.
  - now rewrite app_nil_r.
  - apply Forall_cons_iff in HS as [[Hk Hx] HS]. simpl in Hk, Hx.
    rewrite (construct_hashable k Hk), Hx, Hk.
    assert (Hfresh : ~ In k (Dict.keys acc)).
    { intros Hin. simpl in Hnd. apply List.NoDup_remove_2 in Hnd.
      apply Hnd. apply in_or_app. now left. }
    rewrite (setitem_fresh _ _ _ Hfresh). rewrite IH; [| |exact HS].
    + now rewrite <- app_assoc.
    + unfold Dict.keys in *. rewrite List.map_app. simpl in *.
      now rewrite <- app_assoc.
Qed.

(** loading what was dumped gives the value back, with the items of every
    mapping in the order they were dumped *)
Lemma construct_represent (v : pyval) :
  well_formed v = true -> Yaml.construct (Yaml.represent v) = Some (Yaml.canonical v).
Proof.
  induction v as [| z | s | l IH | items IH] using pyval_induction; intros Hwf;
    try reflexivity.
  - simpl. now rewrite to_Z_of_Z.
  - change (Yaml.represent (PList l)) with (SequenceNode (List.map Yaml.represent l)).
    change (Yaml.canonical (PList l)) with (PList (List.map Yaml.canonical l)).
    apply construct_SequenceNode. simpl in Hwf.
    rewrite List.Forall_forall in *. intros x Hx. apply IH; [exact Hx|].
    rewrite forallb_forall in Hwf. now apply Hwf.
  - apply well_formed_PDict in Hwf as [Hd Hwf].
    rewrite represent_PDict, construct_MappingNode, canonical_PDict.
    rewrite (mapping_order_map
               (fun kx => (fst kx, (Yaml.represent (fst kx), Yaml.represent (snd kx)))))
      by reflexivity.
    rewrite (mapping_order_map (fun kx => (fst kx, Yaml.canonical (snd kx)))) by reflexivity.
    rewrite List.map_map. simpl.
    rewrite construct_items_spec; [reflexivity| |].
    + simpl. unfold Dict.keys.
      rewrite <- (mapping_order_Permutation items).
      apply distinct_NoDup; [|exact Hd].
      apply List.Forall_forall. intros k Hk. apply in_map_iff in Hk as (kx & <- & Hin).
      rewrite List.Forall_forall in Hwf. now apply Hwf.
    + rewrite <- (mapping_order_Permutation items).
      rewrite List.Forall_forall in *. intros kx Hin.
      destruct (Hwf kx Hin) as [Hh Hw]. split; [exact Hh|].
      now apply (IH kx Hin).
Qed.

(** ** Round trip of an exported environment *)

Lemma items_setitem (Qk Qv : pyval -> Prop) (k v : pyval) (d : Dict.items_t) :
  Qk k -> Qv v ->
  Forall (fun kx => Qk (fst kx) /\ Qv (snd kx)) d ->
  Forall (fun kx => Qk (fst kx) /\ Qv (snd kx)) (Dict.setitem k v d).
Proof.
  intros Hk Hv. induction d as [|[k' x'] d IH]; simpl; intros Hd.
  - repeat constructor; assumption.
  - apply Forall_cons_iff in Hd as [[Hk' Hx'] Hd]. simpl in *.
    destruct (Py.key_eqb k' k); constructor; auto.
Qed.

Lemma items_merged (Qk Qv : pyval -> Prop) (states : list State.t) :
  forall acc,
    Forall (fun s => Qk (State.name s) /\ Qv (exported_value s)) states ->
    Forall (fun kx => Qk (fst kx) /\ Qv (snd kx)) acc ->
    Forall (fun kx => Qk (fst kx) /\ Qv (snd kx)) (merged states acc).
Proof.
  unfold merged. induction states as [|s states IH]; intros acc Hs Hacc; simpl; [exact Hacc|].
  apply Forall_cons_iff in Hs as [[Hn Hv] Hs]. apply IH; [exact Hs|].
  now apply items_setitem.
Qed.

Lemma existsb_setitem (f : pyval -> bool) (k v : pyval) (d : Dict.items_t) :
  f k = false -> existsb f (Dict.keys d) = false ->
  existsb f (Dict.keys (Dict.setitem k v d)) = false.
Proof.
  intros Hk. induction d as [|[k' x'] d IH]; simpl; intros Hd.
  - now rewrite Hk.
  - apply orb_false_iff in Hd as [Hk' Hd].
    destruct (Py.key_eqb k' k); simpl; rewrite Hk'; simpl; auto.
Qed.

Lemma distinct_setitem (k v : pyval) (d : Dict.items_t) :
  distinct (Dict.keys d) = true -> distinct (Dict.keys (Dict.setitem k v d)) = true.
Proof.
  induction d as [|[k' x'] d IH]; simpl; intros Hd; [reflexivity|].
  apply andb_true_iff in Hd as [Hn Hd].
  destruct (Py.key_eqb k' k) eqn:Hk; simpl.
  - now rewrite Hn, Hd.
  - rewrite (IH Hd), andb_true_r. apply negb_true_iff.
    apply existsb_setitem; [exact Hk | now apply negb_true_iff].
Qed.

Lemma distinct_merged (states : list State.t) :
  forall acc, distinct (Dict.keys acc) = true ->
              distinct (Dict.keys (merged states acc)) = true.
Proof.
  unfold merged. induction states as [|s states IH]; intros acc Hacc; simpl; [exact Hacc|].
  apply IH. now apply distinct_setitem.
Qed.

Lemma well_formed_exported_value (s : State.t) :
  state_well_formed s = true -> well_formed (exported_value s) = true.
Proof.
  unfold state_well_formed, exported_value. destruct s as [n u [r|]]; simpl.
  - intros H. apply andb_true_iff in H as [H Hr]. apply andb_true_iff in H as [_ Hu].
    destruct r; simpl in *; now rewrite Hu, Hr.
  - intros H. apply andb_true_iff in H as [H _]. now apply andb_true_iff in H as [_ Hu].
Qed.

Lemma get_In (k v : pyval) (d : Dict.items_t) :
  List.NoDup (Dict.keys d) -> Yaml.hashable k = true -> In (k, v) d ->
  Dict.get k d = Some v.
Proof.
  intros Hnd Hk. induction d as [|[k' x'] d IH]; simpl; intros Hin; [contradiction|].
  apply List.NoDup_cons_iff in Hnd as [Hnotin Hnd].
  destruct Hin as [[= -> ->]|Hin].
  - now rewrite key_eqb_refl.
  - rewrite key_eqb_neq; [now apply IH|].
    intros ->. apply Hnotin. unfold Dict.keys. now apply (in_map fst) in Hin.
Qed.

Lemma get_Some_In (n v : pyval) (d : Dict.items_t) :
  Dict.get n d = Some v -> In (n, v) d.
Proof.
  induction d as [|[k' x'] d IH]; simpl; [discriminate|].
  destruct (Py.key_eqb k' n) eqn:Hk.
  - apply key_eqb_eq in Hk. subst k'. intros [= ->]. now left.
  - intros H. right. now apply IH.
Qed.

Lemma last_named_Some (n : pyval) (states : list State.t) (s : State.t) :
  last_named n states = Some s -> In s states /\ State.name s = n.
Proof.
  unfold last_named. induction states as [|t states IH] using rev_ind; [discriminate|].
  rewrite fold_left_app. simpl.
  destruct (Py.key_eqb (State.name t) n) eqn:Hk.
  - intros [= ->]. split; [apply in_or_app; right; now left | now apply key_eqb_eq].
  - intros H. destruct (IH H) as [Hin Hn]. split; [apply in_or_app; now left | exact Hn].
Qed.

Lemma last_named_exists (states : list State.t) (s : State.t) :
  In s states -> Yaml.hashable (State.name s) = true ->
  exists s', last_named (State.name s) states = Some s'.
Proof.
  unfold last_named. induction states as [|t states IH] using rev_ind; [contradiction|].
  intros Hin Hh. rewrite fold_left_app. simpl.
  destruct (Py.key_eqb (State.name t) (State.name s)) eqn:Hk; [eauto|].
  apply in_app_or in Hin as [Hin|[->|[]]]; [now apply IH|].
  now rewrite key_eqb_refl in Hk.
Qed.

Lemma as_dict_url (s : State.t) w tr d :
  State.as_dict s true w = (tr, inr d) -> exists u, State.url s = PStr u.
Proof.
  unfold State.as_dict, mbind, M_bind. intros H.
  apply bind_inr in H as (tr1 & [] & tr2 & H & _).
  unfold Repo.with_repo, mbind, M_bind in H.
  apply bind_inr in H as (tr3 & r & tr4 & H & _).
  unfold Repo.__init__ in H. destruct (State.url s); try discriminate. eauto.
Qed.

Lemma export_states_urls (states : list State.t) :
  forall acc w tr d,
    StateTreeRepo.export_states states acc w = (tr, inr d) ->
    Forall (fun s => exists u, State.url s = PStr u) states.
Proof.
  induction states as [|s states IH]; intros acc w tr d H; [constructor|].
  simpl in H. unfold mbind, M_bind in H.
  apply bind_inr in H as (? & d1 & ? & H1 & H & _).
  constructor; [now apply as_dict_url in H1 | now apply IH in H].
Qed.

Lemma verify_exported (s : State.t) (u : string) :
  State.url s = PStr u ->
  StateTreeRepo.result
    (StateTreeRepo._verify_state
       (PDict [(State.name s, Yaml.canonical (exported_value s))]))
  = inr (canonical_state s).
Proof.
  destruct s as [n url [r|]]; simpl; intros ->; [|reflexivity].
  destruct r; reflexivity.
Qed.

Lemma canonical_state_scalar (s : State.t) :
  match State.ref s with
  | Some r => Yaml.hashable (Ref.name r) = true
  | None => True
  end ->
  canonical_state s = s.
Proof.
  destruct s as [n u [r|]]; simpl; [|reflexivity].
  destruct r as [x|x|x]; simpl; destruct x; try discriminate; reflexivity.
Qed.

(** C6: when the export of an environment of well-formed states succeeds,
    the document loads back as a mapping in which, for each state, the
    entry under its name validates to the state that the exporter kept
    under that name (the state itself when no other state has its name),
    with the same name, URL, kind and name of the reference; only the
    order of the keys inside a mapping is the dumped one. *)
Theorem export_round_trip
  (w : world) (self : StateTreeRepo.t) (environment : string) (doc : node) :
  Forall (fun s => state_well_formed s = true) (states_of self environment) ->
  exported self environment w = inr doc ->
  exists items,
    Yaml.construct doc = Some (PDict items)
    /\ forall s, In s (states_of self environment) ->
        exists s' v,
          In s' (states_of self environment)
          /\ State.name s' = State.name s
          /\ last_named (State.name s)
               (Py.sorted State.__lt__ (states_of self environment)) = Some s'
          /\ Dict.get (State.name s) items = Some v
          /\ StateTreeRepo.result (StateTreeRepo._verify_state (PDict [(State.name s, v)]))
             = inr (canonical_state s')
          /\ ((forall t, In t (states_of self environment) ->
                         State.name t = State.name s -> t = s) -> s' = s).
Proof.
  intros Hwf H.
  set (sorted := Py.sorted State.__lt__ (states_of self environment)).
  assert (Hperm : Permutation (states_of self environment) sorted)
    by apply sorted_Permutation.
  assert (Hurls : Forall (fun s => exists u, State.url s = PStr u) sorted).
  { unfold exported in H. rewrite yaml_unfold in H. unfold bind in H. fold sorted in H.
    destruct (StateTreeRepo.export_states sorted [] w) as [tr [e|d]] eqn:He;
      [discriminate|].
    now apply export_states_urls in He. }
  apply exported_inr in H. fold sorted in H. subst doc.
  set (M := merged sorted []).
  assert (Hwfs : Forall (fun s => state_well_formed s = true) sorted)
    by now rewrite <- Hperm.
  assert (HM : Forall (fun kx => Yaml.hashable (fst kx) = true
                                 /\ well_formed (snd kx) = true) M).
  { apply (items_merged (fun k => Yaml.hashable k = true) (fun v => well_formed v = true));
      [|constructor].
    rewrite List.Forall_forall in *. intros s Hs. specialize (Hwfs s Hs). split.
    - unfold state_well_formed in Hwfs.
      apply andb_true_iff in Hwfs as [Hwfs _]. now apply andb_true_iff in Hwfs as [Hn _].
    - now apply well_formed_exported_value. }
  assert (HdM : distinct (Dict.keys M) = true) by now apply distinct_merged.
  assert (HwfM : well_formed (PDict M) = true) by (apply well_formed_PDict; now split).
  unfold Yaml.safe_dump. rewrite (construct_represent _ HwfM), canonical_PDict.
  eexists. split; [reflexivity|].
  intros s Hs.
  assert (Hh : Yaml.hashable (State.name s) = true).
  { rewrite List.Forall_forall in Hwf. specialize (Hwf s Hs).
    unfold state_well_formed in Hwf.
    apply andb_true_iff in Hwf as [Hwf _]. now apply andb_true_iff in Hwf as [Hn _]. }
  assert (Hs' : In s sorted) by now rewrite <- Hperm.
  destruct (last_named_exists sorted s Hs' Hh) as [s' Hlast].
  destruct (last_named_Some _ _ _ Hlast) as [Hin' Hname].
  exists s', (Yaml.canonical (exported_value s')).
  assert (Hin : In s' (states_of self environment)) by now rewrite Hperm.
  split; [exact Hin|]. split; [exact Hname|]. split; [exact Hlast|]. split; [|split].
  - apply get_In.
    + unfold Dict.keys. rewrite <- (mapping_order_Permutation _).
      rewrite List.map_map. simpl.
      apply distinct_NoDup; [|exact HdM].
      apply List.Forall_forall. intros k Hk. apply in_map_iff in Hk as (kx & <- & Hkx).
      rewrite List.Forall_forall in HM. now apply HM.
    + exact Hh.
    + rewrite <- (mapping_order_Permutation _).
      assert (Hget : Dict.get (State.name s) M = Some (exported_value s')).
      { unfold M. rewrite get_merged. fold sorted. now rewrite Hlast. }
      apply get_Some_In in Hget.
      apply (in_map (fun kx => (fst kx, Yaml.canonical (snd kx)))) in Hget. exact Hget.
  - rewrite List.Forall_forall in Hurls. destruct (Hurls s' Hin') as [u Hu].
    rewrite <- Hname. now apply (verify_exported s' u).
  - intros Huniq. now apply Huniq.
Qed.

Lemma export_round_trip_witness :
  exists items,
    Yaml.construct
      (MappingNode
         [(str_node "api", str_node "https://example/api.git");
          (str_node "db",
           MappingNode [(str_node "tag", str_node "v1.0");
                        (str_node "url", str_node "https://example/db.git")])])
    = Some (PDict items)
    /\ forall s, In s (states_of (tree_of "base" scenario_states) "base") ->
        exists s' v,
          In s' (states_of (tree_of "base" scenario_states) "base")
          /\ State.name s' = State.name s
          /\ last_named (State.name s)
               (Py.sorted State.__lt__ (states_of (tree_of "base" scenario_states) "base"))
             = Some s'
          /\ Dict.get (State.name s) items = Some v
          /\ StateTreeRepo.result (StateTreeRepo._verify_state (PDict [(State.name s, v)]))
             = inr (canonical_state s')
          /\ ((forall t, In t (states_of (tree_of "base" scenario_states) "base") ->
                         State.name t = State.name s -> t = s) -> s' = s).
Proof.
  apply (export_round_trip (constant_world 0 "ok") (tree_of "base" scenario_states) "base").
  - repeat constructor.
  - reflexivity.
Defined.

(** ** Scenarios *)

Example capitalize_branch : Str.capitalize "branch" = "Branch".
Proof. reflexivity. Qed.

Example render_pinned_state :
  State.__repr__
    {| State.name := PStr "db"; State.url := PStr "https://example/db.git";
       State.ref := Some (GitTag (PStr "v1.0")) |}
  = "db (https://example/db.git) [Tag: v1.0]".
Proof. reflexivity. Qed.

Example match_remote_branch :
  Repo.match_branch "  remotes/origin/base" = Some "base"
  /\ Repo.match_branch "  remotes/origin/HEAD -> origin/master" = None
  /\ Repo.match_branch "* master" = None.
Proof. repeat split; reflexivity. Qed.

Example failed_clone_message :
  snd (Repo.__init__ (PStr "bad")
         (constant_world 128 ("fatal: repository not found" ++ String Str.newline "")))
  = inl (GitError
           (Repo.failed_msg (clone_cmd "bad") 128
              ("fatal: repository not found" ++ String Str.newline "")))
  /\ Str.strip "; "
       (Str.replace_newline ("fatal: repository not found" ++ String Str.newline ""))
     = "fatal: repository not found".
Proof. split; reflexivity. Qed.

Example conflicting_references :
  StateTreeRepo.result
    (StateTreeRepo._verify_state
       (PDict [(PStr "web", PDict [(PStr "url", PStr "https://x/y.git");
                                   (PStr "branch", PStr "main");
                                   (PStr "tag", PStr "v2")])]))
  = inl (StateParseError
           (("State web more than one of " ++ String Py.dquote "commit" ++ String Py.dquote ", "
               ++ String Py.dquote "tag" ++ String Py.dquote " or "
               ++ String Py.dquote "branch" ++ String Py.dquote " specified: "
               ++ String Py.dquote "branch" ++ String Py.dquote ", "
               ++ String Py.dquote "tag" ++ String Py.dquote ""))).
Proof. reflexivity. Qed.

Example export_scenario :
  exported (tree_of "base" scenario_states) "base" (constant_world 0 "ok")
  = inr (MappingNode
           [(str_node "api", str_node "https://example/api.git");
            (str_node "db",
             MappingNode [(str_node "tag", str_node "v1.0");
                          (str_node "url", str_node "https://example/db.git")])]).
Proof. reflexivity. Qed.

Example scan_of_root :
  exists self,
    snd (StateTreeRepo.__init__ (PStr "root")
           {| git_exec := git_exec root_world;
              manifest := fun url branch =>
                if String.eqb branch "broken" then Absent
                else manifest root_world url branch |}) = inr self
    /\ StateTreeRepo._environments self = {[ "base" := [plain_state "api" "u"] ]}.
Proof. eexists. split; reflexivity. Qed.

(** * Further properties of the code *)

(** ** Listing the remote branches *)

Lemma lstrip_all_space (ws rest : string) :
  all_space ws = true ->
  Str.lstrip Str.whitespace (ws ++ rest) = Str.lstrip Str.whitespace rest.
Proof.
  induction ws as [|c ws IH]; simpl; intros H; [reflexivity|].
  apply andb_true_iff in H as [Hc Hws]. unfold Str.is_space in Hc.
  rewrite Hc. now apply IH.
Qed.

Lemma lstrip_split (s : string) :
  exists ws, all_space ws = true /\ s = ws ++ Str.lstrip Str.whitespace s.
Proof.
  induction s as [|c s IH]; simpl.
  - exists "". split; reflexivity.
  - destruct (Str.in_chars Str.whitespace c) eqn:Hc.
    + destruct IH as (ws & Hws & Hs). exists (String c ws). simpl.
      unfold Str.is_space. rewrite Hc, Hws. split; [reflexivity|].
      change (String c s = String c (ws ++ Str.lstrip Str.whitespace s)). now f_equal.
    + exists "". split; reflexivity.
Qed.

Lemma drop_prefix_app (p rest : string) : Str.drop_prefix p (p ++ rest) = Some rest.
Proof.
  induction p as [|a p IH]; simpl; [now destruct rest|].
  now rewrite Ascii.eqb_refl.
Qed.

Lemma drop_prefix_Some (p s rest : string) :
  Str.drop_prefix p s = Some rest -> s = p ++ rest.
Proof.
  revert s. induction p as [|a p IH]; intros s; simpl.
  - destruct s; intros [= <-]; reflexivity.
  - destruct s as [|b s]; [discriminate|].
    destruct (Ascii.eqb_spec a b) as [->|]; [|discriminate].
    intros H. rewrite (IH s H). reflexivity.
Qed.

(** X1: a line of the branch listing that is ASCII whitespace, then
    remotes/origin/, then a non-empty name of ASCII characters none of which
    is whitespace, yields that name. *)
Theorem match_branch_accepts (indent name : string) :
  all_space indent = true ->
  name <> "" ->
  is_ascii name = true ->
  Repo.all_nonspace name = true ->
  Repo.match_branch (indent ++ "remotes/origin/" ++ name) = Some name.
Proof.
  intros Hi Hn _ Hs. unfold Repo.match_branch.
  rewrite (lstrip_all_space _ _ Hi).
  change (Str.lstrip Str.whitespace ("remotes/origin/" ++ name))
    with ("remotes/origin/" ++ name).
  rewrite drop_prefix_app. destruct name; [contradiction|]. now rewrite Hs.
Qed.

Lemma match_branch_accepts_witness :
  Repo.match_branch ("  " ++ "remotes/origin/" ++ "feature/x") = Some "feature/x".
Proof.
  apply match_branch_accepts; [reflexivity | discriminate | reflexivity | reflexivity].
Defined.

Lemma match_branch_shape (line name : string) :
  Repo.match_branch line = Some name ->
  name <> ""
  /\ Repo.all_nonspace name = true
  /\ exists indent, all_space indent = true /\ line = indent ++ "remotes/origin/" ++ name.
Proof.
  unfold Repo.match_branch. intros H.
  destruct (Str.drop_prefix "remotes/origin/" (Str.lstrip Str.whitespace line))
    as [rest|] eqn:Hd; [|discriminate].
  destruct rest as [|c rest]; [discriminate|].
  destruct (Repo.all_nonspace (String c rest)) eqn:Hs; [|discriminate].
  injection H as <-. split; [discriminate|]. split; [exact Hs|].
  destruct (lstrip_split line) as (ws & Hws & Hl). exists ws. split; [exact Hws|].
  apply drop_prefix_Some in Hd. now rewrite <- Hd.
Qed.

(** X2: a line yields a branch only when it has that shape: the name is
    not empty, holds no whitespace, and is the whole rest of the line after
    remotes/origin/; so local branches and the line of the symbolic HEAD are
    skipped. *)
Theorem match_branch_sound (line name : string) :
  Repo.match_branch line = Some name ->
  name <> ""
  /\ Repo.all_nonspace name = true
  /\ exists indent, all_space indent = true /\ line = indent ++ "remotes/origin/" ++ name.
Proof. apply match_branch_shape. Qed.

Lemma match_branch_sound_witness :
  "base" <> ""
  /\ Repo.all_nonspace "base" = true
  /\ exists indent, all_space indent = true
                    /\ "  remotes/origin/base" = indent ++ "remotes/origin/" ++ "base".
Proof.
  apply (match_branch_sound "  remotes/origin/base" "base"). reflexivity.
Defined.

(** X3: the branches property runs one git command, the listing of all
    branches, and every name it yields is non-empty and free of whitespace;
    when that command fails, its GitError is what the property raises. *)
Theorem branches_are_clean_names (w : world) (url : string) :
  (forall tr names,
      Repo.branches {| Repo._url := url |} w = (tr, inr names) ->
      tr = [EvGit url ["git"; "branch"; "--list"; "--all"]]
      /\ Forall (fun b => b <> "" /\ Repo.all_nonspace b = true) names)
  /\ (forall code out,
         git_exec w url ["git"; "branch"; "--list"; "--all"] = (code, out) ->
         code <> 0%Z ->
         Repo.branches {| Repo._url := url |} w
         = ([EvGit url ["git"; "branch"; "--list"; "--all"]],
            inl (GitError
                   (Repo.failed_msg ["git"; "branch"; "--list"; "--all"] code out)))).
Proof.
  split.
  - intros tr names H. unfold Repo.branches, Repo.git, mbind, M_bind in H. simpl in H.
    destruct (git_exec w url ["git"; "branch"; "--list"; "--all"]) as [code out] eqn:He.
    destruct (Z.eqb_spec code 0) as [->|Hc].
    + erewrite bind_ok in H by (eapply git_at_ok; [reflexivity | exact He]).
      simpl in H. injection H as <- <-. split; [reflexivity|].
      induction (Str.split_lines out) as [|line lines IH]; simpl; [constructor|].
      destruct (Repo.match_branch line) as [b|] eqn:Hb; [|exact IH].
      constructor; [|exact IH].
      apply match_branch_shape in Hb as (Hn & Hs & _). now split.
    + erewrite bind_err in H by (eapply git_at_failed; [reflexivity | exact He | exact Hc]).
      discriminate.
  - intros code out He Hc. unfold Repo.branches, Repo.git, mbind, M_bind. simpl.
    erewrite bind_err by (eapply git_at_failed; [reflexivity | exact He | exact Hc]).
    reflexivity.
Qed.

Lemma branches_are_clean_names_witness :
  [EvGit "root" ["git"; "branch"; "--list"; "--all"]]
  = [EvGit "root" ["git"; "branch"; "--list"; "--all"]]
  /\ Forall (fun b => b <> "" /\ Repo.all_nonspace b = true) ["master"; "base"; "broken"].
Proof.
  apply (proj1 (branches_are_clean_names root_world "root")
           [EvGit "root" ["git"; "branch"; "--list"; "--all"]] ["master"; "base"; "broken"]).
  reflexivity.
Defined.

(** ** The working copy of a state *)

Lemma with_repo_cloned {A : Type} (w : world) (u out : string) (body : Repo.t -> M A) :
  git_exec w u (clone_cmd u) = (0%Z, out) ->
  Repo.with_repo (PStr u) body w
  = ((EvGit u (clone_cmd u) :: fst (body {| Repo._url := u |} w) ++ [EvCleanup u])%list,
     snd (body {| Repo._url := u |} w)).
Proof.
  intros H. unfold Repo.with_repo, Repo.__init__, mbind, M_bind, bind.
  erewrite git_at_ok; [|reflexivity|exact H]. simpl.
  unfold finally, Repo.__exit__, emit. simpl.
  destruct (body {| Repo._url := u |} w) as [tr r]. reflexivity.
Qed.

(** X4: the with block over a Repo removes the working copy on every way
    out: when the clone succeeds, the cleanup is the last thing that
    happens, whether the body returns or raises, and the outcome of the
    block is the outcome of the body; when the clone fails, the body does
    not run and the GitError of the clone is raised. *)
Theorem with_repo_releases {A : Type} (w : world) (u : string) (body : Repo.t -> M A) :
  (forall out,
      git_exec w u (clone_cmd u) = (0%Z, out) ->
      Repo.with_repo (PStr u) body w
      = ((EvGit u (clone_cmd u) :: fst (body {| Repo._url := u |} w) ++ [EvCleanup u])%list,
         snd (body {| Repo._url := u |} w)))
  /\ (forall code out,
         git_exec w u (clone_cmd u) = (code, out) -> code <> 0%Z ->
         Repo.with_repo (PStr u) body w
         = ([EvGit u (clone_cmd u)],
            inl (GitError (Repo.failed_msg (clone_cmd u) code out)))).
Proof.
  split.
  - intros out H. now apply (with_repo_cloned w u out).
  - intros code out H Hc. unfold Repo.with_repo, Repo.__init__, mbind, M_bind, bind.
    erewrite git_at_failed; [|reflexivity|exact H|exact Hc]. reflexivity.
Qed.

Lemma with_repo_releases_witness :
  Repo.with_repo (PStr "u") (fun r => Repo.validate_tag r (PStr "v9")) (constant_world 0 "")
  = ([EvGit "u" (clone_cmd "u"); EvGit "u" ["git"; "tag"; "--list"; "v9"]; EvCleanup "u"],
     inl (GitError "Tag v9 not found for repository u")).
Proof.
  rewrite (proj1 (with_repo_releases (constant_world 0 "") "u"
                    (fun r => Repo.validate_tag r (PStr "v9"))) "" eq_refl).
  reflexivity.
Defined.

Lemma validate_run (w : world) (u n : string) (r : GitRef) (code : Z) (out : string) :
  Ref.name r = PStr n ->
  git_exec w u (lookup_cmd r) = (code, out) ->
  validate {| Repo._url := u |} r w
  = ([EvGit u (lookup_cmd r)],
     if (code =? 0)%Z then
       if found r out then inr tt else inl (GitError (not_found_msg u r))
     else inl (GitError (Repo.failed_msg (lookup_cmd r) code out))).
Proof.
  intros Hn He. destruct (Z.eqb_spec code 0) as [->|Hc].
  - destruct r as [x|x|x]; simpl in Hn; subst x; unfold validate, not_found_msg; simpl;
      [unfold Repo.validate_branch | unfold Repo.validate_commit | unfold Repo.validate_tag];
      unfold Repo.git, mbind, M_bind, bind; simpl;
      (erewrite git_at_ok; [|reflexivity|exact He]); simpl;
      match goal with |- context [String.eqb ?a ?b] => destruct (String.eqb a b) end;
      reflexivity.
  - destruct r as [x|x|x]; simpl in Hn; subst x; unfold validate; simpl;
      [unfold Repo.validate_branch | unfold Repo.validate_commit | unfold Repo.validate_tag];
      unfold Repo.git, mbind, M_bind, bind; simpl;
      (erewrite git_at_failed; [|reflexivity|exact He|exact Hc]); reflexivity.
Qed.

(** X5: serializing a pinned state with verification clones its URL, runs
    the one lookup command of the kind of its reference, and removes the
    working copy; the mapping is returned when the lookup finds the
    reference, GitError is raised when it finds nothing or git fails, and
    the working copy is removed in each case. *)
Theorem as_dict_verifies_reference
  (w : world) (s : State.t) (u n : string) (r : GitRef) (clone_out : string)
  (code : Z) (out : string) :
  State.url s = PStr u ->
  State.ref s = Some r ->
  Ref.name r = PStr n ->
  git_exec w u (clone_cmd u) = (0%Z, clone_out) ->
  git_exec w u (lookup_cmd r) = (code, out) ->
  State.as_dict s true w
  = ([EvGit u (clone_cmd u); EvGit u (lookup_cmd r); EvCleanup u],
     if (code =? 0)%Z then
       if found r out then inr [(State.name s, exported_value s)]
       else inl (GitError (not_found_msg u r))
     else inl (GitError (Repo.failed_msg (lookup_cmd r) code out))).
Proof.
  intros Hu Hr Hn Hclone Hlookup.
  pose proof (validate_run w u n r code out Hn Hlookup) as Hv.
  assert (Hbody : State.verify_ref s {| Repo._url := u |} w
                  = validate {| Repo._url := u |} r w).
  { unfold State.verify_ref, try_except. rewrite Hr. fold (validate {| Repo._url := u |} r).
    rewrite Hv. destruct (code =? 0)%Z; [destruct (found r out)|]; reflexivity. }
  unfold State.as_dict, exported_value. rewrite Hu, Hr. unfold mbind, M_bind, bind.
  rewrite (with_repo_cloned w u clone_out (State.verify_ref s) Hclone).
  rewrite Hbody, Hv. simpl.
  destruct (code =? 0)%Z; [destruct (found r out)|]; reflexivity.
Qed.

Lemma as_dict_verifies_reference_witness :
  State.as_dict
    {| State.name := PStr "db"; State.url := PStr "u"; State.ref := Some (GitTag (PStr "v1")) |}
    true (constant_world 0 "v1")
  = ([EvGit "u" (clone_cmd "u"); EvGit "u" ["git"; "tag"; "--list"; "v1"]; EvCleanup "u"],
     inr [(PStr "db", PDict [(PStr "url", PStr "u"); (PStr "tag", PStr "v1")])]).
Proof.
  apply (as_dict_verifies_reference (constant_world 0 "v1")
           {| State.name := PStr "db"; State.url := PStr "u";
              State.ref := Some (GitTag (PStr "v1")) |}
           "u" "v1" (GitTag (PStr "v1")) "v1" 0 "v1"); reflexivity.
Defined.

(** X6: verification never changes what is serialized: without it as_dict
    has no effect and returns the one-item mapping of the state, whatever
    the state holds; with it, a call that returns has returned that same
    mapping. *)
Theorem as_dict_same_mapping (w : world) (s : State.t) :
  State.as_dict s false w = ([], inr [(State.name s, exported_value s)])
  /\ forall tr d, State.as_dict s true w = (tr, inr d) ->
                  State.as_dict s false w = ([], inr d).
Proof.
  assert (H0 : State.as_dict s false w = ([], inr [(State.name s, exported_value s)])).
  { unfold State.as_dict, exported_value. destruct (State.ref s); reflexivity. }
  split; [exact H0|].
  intros tr d H. apply as_dict_inr in H. now subst d.
Qed.

(** ** What the validator accepts and rejects *)

Lemma verify_state_options (k : pyval) (opts : Dict.items_t) :
  StateTreeRepo.result (StateTreeRepo._verify_state (PDict [(k, PDict opts)]))
  = fst (StateTreeRepo.verify_options k opts).
Proof.
  unfold StateTreeRepo._verify_state. simpl.
  now destruct (StateTreeRepo.verify_options k opts).
Qed.

Lemma filter_unknown_nil (keys : list pyval) :
  forallb StateTreeRepo.is_valid_option keys = true ->
  List.filter (fun k => negb (StateTreeRepo.is_valid_option k)) keys = [].
Proof.
  induction keys as [|k keys IH]; simpl; [reflexivity|].
  intros H. apply andb_true_iff in H as [Hk H]. rewrite Hk. simpl. now apply IH.
Qed.

Lemma valid_option_str (k : pyval) :
  StateTreeRepo.is_valid_option k = true -> PStr (str_of k) = k.
Proof.
  destruct k; simpl; try discriminate. reflexivity.
Qed.

Lemma known_keys_str (keys : list pyval) :
  forallb StateTreeRepo.is_valid_option keys = true ->
  Repo.str_args keys = Some (List.map str_of keys).
Proof.
  induction keys as [|k keys IH]; simpl; [reflexivity|].
  intros H. apply andb_true_iff in H as [Hk H].
  rewrite <- (valid_option_str k Hk). simpl. now rewrite (IH H).
Qed.

Lemma known_remove (k : pyval) (opts : Dict.items_t) :
  options_known opts = true -> options_known (Dict.remove k opts) = true.
Proof.
  unfold options_known. induction opts as [|[k' x'] opts IH]; simpl; [reflexivity|].
  intros H. apply andb_true_iff in H as [Hk H].
  destruct (Py.key_eqb k' k); simpl; [exact H|]. now rewrite Hk, IH.
Qed.

(** X7: on an entry that is a mapping with one key, the validator either
    returns a state or raises StateParseError, and nothing else, whatever
    the key and the value are; a value that is neither a string nor a
    mapping is rejected with the name of its type. *)
Theorem verify_state_single_key (k v : pyval) :
  state_or_parse_error
    (StateTreeRepo.result (StateTreeRepo._verify_state (PDict [(k, v)])))
  /\ (Py.is_str v = false -> (forall opts, v <> PDict opts) ->
      StateTreeRepo.result (StateTreeRepo._verify_state (PDict [(k, v)]))
      = inl (StateParseError
               ("State " ++ Py.str k ++ " options should be passed as str or dict, not "
                  ++ Py.type_name v))).
Proof.
  split.
  - destruct v as [| z | s | l | opts]; try exact I.
    rewrite verify_state_options. unfold StateTreeRepo.verify_options.
    destruct (List.filter _ (Dict.keys opts)) eqn:Hf; [|exact I].
    destruct (Dict.get (PStr "url") opts); [|exact I].
    destruct (1 <? _)%nat; [|exact I].
    assert (Hk : options_known opts = true).
    { unfold options_known. apply forallb_forall. intros x Hx.
      destruct (StateTreeRepo.is_valid_option x) eqn:Hv; [reflexivity|].
      assert (In x (List.filter (fun k => negb (StateTreeRepo.is_valid_option k))
                      (Dict.keys opts))) by (apply filter_In; now rewrite Hv).
      rewrite Hf in H. contradiction. }
    unfold StateTreeRepo.join.
    rewrite (known_keys_str _ (known_remove (PStr "url") opts Hk)). exact I.
  - intros Hs Hd. destruct v; try discriminate; try reflexivity.
    exfalso. now apply (Hd items).
Qed.

Lemma verify_state_single_key_witness :
  StateTreeRepo.result (StateTreeRepo._verify_state (PDict [(PStr "db", PInt 5)]))
  = inl (StateParseError "State db options should be passed as str or dict, not int").
Proof.
  apply (proj2 (verify_state_single_key (PStr "db") (PInt 5))); [reflexivity | discriminate].
Defined.

(** X8: the shapes the validator accepts: a bare string is the URL of a
    state without reference; a mapping with url alone gives a state without
    reference; url together with one of branch, commit and tag gives a
    state with the reference of that kind, in whichever order the two
    options are written. *)
Theorem verify_state_accepts (name u rn : pyval) (us kind : string) (r : GitRef) :
  ref_of_kind kind rn = Some r ->
  StateTreeRepo.result (StateTreeRepo._verify_state (PDict [(name, PStr us)]))
  = inr {| State.name := name; State.url := PStr us; State.ref := None |}
  /\ StateTreeRepo.result
       (StateTreeRepo._verify_state (PDict [(name, PDict [(PStr "url", u)])]))
     = inr {| State.name := name; State.url := u; State.ref := None |}
  /\ StateTreeRepo.result
       (StateTreeRepo._verify_state
          (PDict [(name, PDict [(PStr "url", u); (PStr kind, rn)])]))
     = inr {| State.name := name; State.url := u; State.ref := Some r |}
  /\ StateTreeRepo.result
       (StateTreeRepo._verify_state
          (PDict [(name, PDict [(PStr kind, rn); (PStr "url", u)])]))
     = inr {| State.name := name; State.url := u; State.ref := Some r |}.
Proof.
  unfold ref_of_kind. intros H.
  destruct (String.eqb_spec kind "branch") as [->|_].
  { injection H as <-. repeat split; reflexivity. }
  destruct (String.eqb_spec kind "commit") as [->|_].
  { injection H as <-. repeat split; reflexivity. }
  destruct (String.eqb_spec kind "tag") as [->|_]; [|discriminate].
  injection H as <-. repeat split; reflexivity.
Qed.

Lemma verify_state_accepts_witness :
  StateTreeRepo.result
    (StateTreeRepo._verify_state
       (PDict [(PStr "db", PDict [(PStr "commit", PStr "abc123"); (PStr "url", PStr "u")])]))
  = inr {| State.name := PStr "db"; State.url := PStr "u";
           State.ref := Some (GitCommit (PStr "abc123")) |}.
Proof.
  apply (verify_state_accepts (PStr "db") (PStr "u") (PStr "abc123") "u" "commit"
           (GitCommit (PStr "abc123")) eq_refl).
Defined.

(** X9: options that are all known but lack url are rejected with
    StateParseError, whose message names the state, and the options mapping
    is left as it was. *)
Theorem verify_state_missing_url (name : pyval) (opts : Dict.items_t) :
  options_known opts = true ->
  Dict.get (PStr "url") opts = None ->
  let out := StateTreeRepo._verify_state (PDict [(name, PDict opts)]) in
  StateTreeRepo.result out
  = inl (StateParseError
           ("State " ++ Py.str name ++ " missing mandatory option " ++ quoted "url"))
  /\ StateTreeRepo.options_after out = Some (PDict opts).
Proof.
  intros Hk Hu. cbn zeta. unfold StateTreeRepo._verify_state. simpl.
  unfold StateTreeRepo.verify_options.
  rewrite (filter_unknown_nil _ Hk), Hu. split; reflexivity.
Qed.

Lemma verify_state_missing_url_witness :
  StateTreeRepo.result
    (StateTreeRepo._verify_state (PDict [(PStr "web", PDict [(PStr "branch", PStr "main")])]))
  = inl (StateParseError ("State web missing mandatory option " ++ quoted "url")).
Proof.
  apply (verify_state_missing_url (PStr "web") [(PStr "branch", PStr "main")]); reflexivity.
Defined.

(** X10: known options with url and more than one of branch, commit and
    tag are rejected with StateParseError, whose message lists the options
    that are left once url is taken out. *)
Theorem verify_state_conflicting_references (name u : pyval) (opts : Dict.items_t) :
  options_known opts = true ->
  Dict.get (PStr "url") opts = Some u ->
  (1 < List.length (Dict.remove (PStr "url") opts))%nat ->
  StateTreeRepo.result (StateTreeRepo._verify_state (PDict [(name, PDict opts)]))
  = inl (StateParseError
           ("State " ++ Py.str name ++ " more than one of "
              ++ String Py.dquote "commit" ++ String Py.dquote ", "
              ++ String Py.dquote "tag" ++ String Py.dquote " or "
              ++ String Py.dquote "branch" ++ String Py.dquote " specified: "
              ++ quoted (Str.join (String Py.dquote ", " ++ String Py.dquote "")
                           (List.map str_of (Dict.keys (Dict.remove (PStr "url") opts)))))).
Proof.
  intros Hk Hu Hlen. rewrite verify_state_options. unfold StateTreeRepo.verify_options.
  rewrite (filter_unknown_nil _ Hk), Hu.
  apply Nat.ltb_lt in Hlen. rewrite Hlen.
  unfold StateTreeRepo.join.
  rewrite (known_keys_str _ (known_remove (PStr "url") opts Hk)). reflexivity.
Qed.

Lemma verify_state_conflicting_references_witness :
  is_StateParseError
    (StateTreeRepo.result
       (StateTreeRepo._verify_state
          (PDict [(PStr "web", PDict [(PStr "url", PStr "https://x/y.git");
                                      (PStr "branch", PStr "main");
                                      (PStr "tag", PStr "v2")])]))).
Proof.
  rewrite (verify_state_conflicting_references (PStr "web") (PStr "https://x/y.git")
             [(PStr "url", PStr "https://x/y.git"); (PStr "branch", PStr "main");
              (PStr "tag", PStr "v2")] eq_refl eq_refl).
  - exact I.
  - simpl. lia.
Defined.

Lemma unknown_options_nonempty (opts : Dict.items_t) :
  options_known opts = false -> unknown_options opts <> [].
Proof.
  unfold options_known, unknown_options. intros Hk Hf.
  assert (forallb StateTreeRepo.is_valid_option (Dict.keys opts) = true); [|congruence].
  apply forallb_forall. intros x Hx.
  destruct (StateTreeRepo.is_valid_option x) eqn:Hv; [reflexivity|].
  assert (In x (List.filter (fun k => negb (StateTreeRepo.is_valid_option k))
                  (Dict.keys opts))) by (apply filter_In; now rewrite Hv).
  rewrite Hf in H. contradiction.
Qed.

(** X11: an entry with an option other than branch, commit, tag and url is
    rejected with StateParseError, whose message starts with the name of the
    state; this happens before url is looked for, so with and without url,
    and the options mapping is left as it was.  When exactly one option is
    unknown and it is an ASCII string, the message is
    State <name> invalid options: {<repr of the option>}. *)
Theorem verify_state_unknown_option (name : pyval) (opts : Dict.items_t) :
  options_known opts = false ->
  let out := StateTreeRepo._verify_state (PDict [(name, PDict opts)]) in
  (exists listing,
      StateTreeRepo.result out
      = inl (StateParseError ("State " ++ Py.str name ++ " invalid options: " ++ listing)))
  /\ StateTreeRepo.options_after out = Some (PDict opts)
  /\ (forall k,
         is_ascii k = true ->
         unknown_options opts = [PStr k] ->
         StateTreeRepo.result out
         = inl (StateParseError
                  ("State " ++ Py.str name ++ " invalid options: {"
                     ++ Py.repr (PStr k) ++ "}"))).
Proof.
  intros Hk. cbn zeta. apply unknown_options_nonempty in Hk.
  unfold unknown_options in *.
  unfold StateTreeRepo._verify_state. simpl.
  unfold StateTreeRepo.verify_options.
  destruct (List.filter _ (Dict.keys opts)) as [|k0 ks] eqn:Hf; [contradiction|].
  split; [eexists; reflexivity | split; [reflexivity|]].
  intros k _ [= -> ->]. reflexivity.
Qed.

Lemma verify_state_unknown_option_witness :
  StateTreeRepo.result
    (StateTreeRepo._verify_state
       (PDict [(PStr "web", PDict [(PStr "url", PStr "u"); (PStr "foo", PStr "main")])]))
  = inl (StateParseError "State web invalid options: {'foo'}").
Proof.
  apply (proj2 (proj2 (verify_state_unknown_option (PStr "web")
                         [(PStr "url", PStr "u"); (PStr "foo", PStr "main")] eq_refl))
           "foo"); reflexivity.
Defined.

(** ** What the scan accumulates *)

Lemma verify_state_stdout (state : pyval) :
  StateTreeRepo.stdout (StateTreeRepo._verify_state state) = [EvPrint state].
Proof.
  unfold StateTreeRepo._verify_state.
  destruct (StateTreeRepo.len state) as [e|n]; [reflexivity|].
  destruct (negb (n =? 1)%nat).
  - destruct state; try reflexivity.
    now destruct (StateTreeRepo.join "," (Dict.keys items)).
  - destruct state; try reflexivity.
    destruct (Dict.popitem items) as [[[k v] items']|]; [|reflexivity].
    destruct v; try reflexivity.
    now destruct (StateTreeRepo.verify_options k items0).
Qed.

Lemma insert_touch (branch : string) (l : list State.t) (envs : gmap string (list State.t)) :
  <[branch := l]> (StateTreeRepo.touch branch envs) = <[branch := l]> envs.
Proof.
  unfold StateTreeRepo.touch. destruct (envs !! branch); [reflexivity|].
  apply insert_insert_eq.
Qed.

Lemma scan_entries_all (w : world) (branch : string) (entries : list pyval) :
  forall (states : list State.t) (envs : gmap string (list State.t)),
    List.map (fun e => StateTreeRepo.result (StateTreeRepo._verify_state e)) entries
    = List.map inr states ->
    StateTreeRepo.scan_entries branch entries envs w
    = (List.map EvPrint entries,
       inr match entries with
           | [] => envs
           | _ :: _ => <[branch := ((envs !!! branch) ++ states)%list]> envs
           end).
Proof.
  induction entries as [|e entries IH]; intros states envs H; [reflexivity|].
  destruct states as [|st states]; [discriminate|].
  simpl in H. injection H as He H.
  simpl. unfold mbind, M_bind, bind, StateTreeRepo.emit_all.
  rewrite verify_state_stdout, He.
  rewrite (IH states _ H), touch_lookup_total, insert_touch. simpl.
  do 2 f_equal. destruct entries as [|e' entries].
  - destruct states; [reflexivity | discriminate].
  - rewrite lookup_total_insert_eq, insert_insert_eq, <- app_assoc. reflexivity.
Qed.

Lemma scan_branch_tree_list w url branch out entries envs :
  git_exec w url (checkout_cmd branch) = (0%Z, out) ->
  manifest w url branch = Decoded (Tree (PList entries)) ->
  StateTreeRepo.scan_branch {| Repo._url := url |} branch envs w
  = ((EvGit url (checkout_cmd branch) :: EvOpen url
        :: fst (StateTreeRepo.scan_entries branch entries envs w))%list,
     match snd (StateTreeRepo.scan_entries branch entries envs w) with
     | inl (YAMLError exc) => inl (StateParseError (parse_error_msg branch exc))
     | inl FileNotFoundError => inr envs
     | r => r
     end).
Proof.
  intros Hc Hm. unfold StateTreeRepo.scan_branch, mbind, M_bind.
  erewrite bind_ok by (now apply checkout_ok; eauto).
  unfold try_except, StateTreeRepo.load_manifest, mbind, M_bind, bind, emit, ask.
  simpl. rewrite Hm. simpl.
  destruct (StateTreeRepo.scan_entries branch entries envs w) as [tr [e|envs']]; simpl;
    [|reflexivity].
  destruct e; simpl; rewrite ?app_nil_r; reflexivity.
Qed.

(** X12: for a manifest that is a sequence none of whose objects is shared
    through an alias: when every entry validates, the scan of the branch
    appends the validated states to the environment of the branch in the
    order of the manifest, and prints each entry; a manifest that is an
    empty sequence leaves the environments as they were, without a key for
    the branch. *)
Theorem scan_entries_appends (w : world) (url branch out : string) (entries : list pyval)
  (states : list State.t) (envs : gmap string (list State.t)) :
  git_exec w url (checkout_cmd branch) = (0%Z, out) ->
  manifest w url branch = Decoded (Tree (PList entries)) ->
  List.map (fun e => StateTreeRepo.result (StateTreeRepo._verify_state e)) entries
  = List.map inr states ->
  StateTreeRepo.scan_branch {| Repo._url := url |} branch envs w
  = ((EvGit url (checkout_cmd branch) :: EvOpen url :: List.map EvPrint entries)%list,
     inr match entries with
         | [] => envs
         | _ :: _ => <[branch := ((envs !!! branch) ++ states)%list]> envs
         end).
Proof.
  intros Hc Hm H.
  rewrite (scan_branch_tree_list _ _ _ _ _ envs Hc Hm).
  now rewrite (scan_entries_all w branch entries states envs H).
Qed.

Lemma scan_entries_appends_witness :
  StateTreeRepo.scan_branch {| Repo._url := "root" |} "base" ∅
    {| git_exec := fun _ _ => (0%Z, "");
       manifest := fun _ _ =>
         Decoded (Tree (PList [PDict [(PStr "api", PStr "u")];
                               PDict [(PStr "db", PStr "v")]])) |}
  = ([EvGit "root" (checkout_cmd "base"); EvOpen "root";
      EvPrint (PDict [(PStr "api", PStr "u")]); EvPrint (PDict [(PStr "db", PStr "v")])],
     inr (<["base" := [plain_state "api" "u"; plain_state "db" "v"]]> ∅)).
Proof.
  rewrite (scan_entries_appends
             {| git_exec := fun _ _ => (0%Z, "");
                manifest := fun _ _ =>
                  Decoded (Tree (PList [PDict [(PStr "api", PStr "u")];
                                        PDict [(PStr "db", PStr "v")]])) |}
             "root" "base" ""
             [PDict [(PStr "api", PStr "u")]; PDict [(PStr "db", PStr "v")]]
             [plain_state "api" "u"; plain_state "db" "v"] ∅ eq_refl eq_refl eq_refl).
  reflexivity.
Defined.

(** X13: what the scan of a branch does with a manifest that decodes to
    something else than a sequence.  None (an empty file) or a number cannot
    be iterated and raises TypeError.  A mapping is iterated by its keys,
    and a string by its characters: the first key, when it is a string, and
    the first character raise AttributeError in the validator, after being
    printed.  An empty mapping and an empty string have nothing to iterate:
    the scan of the branch ends without an error and leaves the environments
    as they were. *)
Theorem scan_branch_manifest_shape (w : world) (url branch out : string)
  (envs : gmap string (list State.t)) :
  git_exec w url (checkout_cmd branch) = (0%Z, out) ->
  (forall v, manifest w url branch = Decoded (Tree v) -> v = PNone \/ (exists z, v = PInt z) ->
             StateTreeRepo.scan_branch {| Repo._url := url |} branch envs w
             = ([EvGit url (checkout_cmd branch); EvOpen url], inl TypeError))
  /\ (forall k x rest,
         manifest w url branch = Decoded (Tree (PDict ((PStr k, x) :: rest))) ->
         StateTreeRepo.scan_branch {| Repo._url := url |} branch envs w
         = ([EvGit url (checkout_cmd branch); EvOpen url; EvPrint (PStr k)],
            inl AttributeError))
  /\ (forall c rest,
         manifest w url branch = Decoded (Tree (PStr (String c rest))) ->
         StateTreeRepo.scan_branch {| Repo._url := url |} branch envs w
         = ([EvGit url (checkout_cmd branch); EvOpen url; EvPrint (PStr (String c ""))],
            inl AttributeError))
  /\ (forall v, manifest w url branch = Decoded (Tree v) -> v = PDict [] \/ v = PStr "" ->
                StateTreeRepo.scan_branch {| Repo._url := url |} branch envs w
                = ([EvGit url (checkout_cmd branch); EvOpen url], inr envs)).
Proof.
  intros Hc. split; [|split; [|split]].
  - intros v Hm Hv. unfold StateTreeRepo.scan_branch, mbind, M_bind.
    erewrite bind_ok by (now apply checkout_ok; eauto).
    unfold try_except, StateTreeRepo.load_manifest, mbind, M_bind, bind, emit, ask.
    simpl. rewrite Hm. destruct Hv as [->|[z ->]]; reflexivity.
  - intros k x rest Hm. unfold StateTreeRepo.scan_branch, mbind, M_bind.
    erewrite bind_ok by (now apply checkout_ok; eauto).
    unfold try_except, StateTreeRepo.load_manifest, mbind, M_bind, bind, emit, ask.
    simpl. rewrite Hm. simpl. unfold StateTreeRepo.emit_all, StateTreeRepo._verify_state.
    simpl. destruct (negb (String.length k =? 1)%nat); reflexivity.
  - intros c rest Hm. unfold StateTreeRepo.scan_branch, mbind, M_bind.
    erewrite bind_ok by (now apply checkout_ok; eauto).
    unfold try_except, StateTreeRepo.load_manifest, mbind, M_bind, bind, emit, ask.
    simpl. rewrite Hm. reflexivity.
  - intros v Hm Hv. unfold StateTreeRepo.scan_branch, mbind, M_bind.
    erewrite bind_ok by (now apply checkout_ok; eauto).
    unfold try_except, StateTreeRepo.load_manifest, mbind, M_bind, bind, emit, ask.
    simpl. rewrite Hm. destruct Hv as [->| ->]; reflexivity.
Qed.

Lemma scan_branch_manifest_shape_witness :
  StateTreeRepo.scan_branch {| Repo._url := "root" |} "base" ∅
    {| git_exec := fun _ _ => (0%Z, ""); manifest := fun _ _ => Decoded (Tree PNone) |}
  = ([EvGit "root" (checkout_cmd "base"); EvOpen "root"], inl TypeError).
Proof.
  apply (proj1 (scan_branch_manifest_shape
                  {| git_exec := fun _ _ => (0%Z, "");
                     manifest := fun _ _ => Decoded (Tree PNone) |}
                  "root" "base" "" ∅ eq_refl) PNone eq_refl).
  now left.
Defined.

Lemma scan_entries_stops (w : world) (branch : string) (pre : list pyval) :
  forall (states : list State.t) (e : pyval) (post : list pyval) (ex : exn)
         (envs : gmap string (list State.t)),
    List.map (fun e => StateTreeRepo.result (StateTreeRepo._verify_state e)) pre
    = List.map inr states ->
    StateTreeRepo.result (StateTreeRepo._verify_state e) = inl ex ->
    StateTreeRepo.scan_entries branch (pre ++ e :: post)%list envs w
    = (List.map EvPrint (pre ++ [e])%list, inl ex).
Proof.
  induction pre as [|p pre IH]; intros states e post ex envs Hpre He.
  - simpl. unfold mbind, M_bind, bind, StateTreeRepo.emit_all.
    now rewrite verify_state_stdout, He.
  - destruct states as [|st states]; [discriminate|].
    simpl in Hpre. injection Hpre as Hp Hpre.
    simpl. unfold mbind, M_bind, bind, StateTreeRepo.emit_all.
    rewrite verify_state_stdout, Hp.
    now rewrite (IH states e post ex _ Hpre He).
Qed.

(** X14: for a manifest that is a sequence none of whose objects is shared
    through an alias: a StateParseError of the validator leaves the scan as
    it is.  When the entries before it validate, the scan of the branch
    stops at the first entry that is rejected and raises that very
    exception, with the message of the validator and without the name of
    the branch. *)
Theorem scan_branch_rejected_entry
  (w : world) (url branch out : string) (pre post : list pyval) (e : pyval)
  (states : list State.t) (msg : string) (envs : gmap string (list State.t)) :
  git_exec w url (checkout_cmd branch) = (0%Z, out) ->
  manifest w url branch = Decoded (Tree (PList (pre ++ e :: post)%list)) ->
  List.map (fun e => StateTreeRepo.result (StateTreeRepo._verify_state e)) pre
  = List.map inr states ->
  StateTreeRepo.result (StateTreeRepo._verify_state e) = inl (StateParseError msg) ->
  StateTreeRepo.scan_branch {| Repo._url := url |} branch envs w
  = ((EvGit url (checkout_cmd branch) :: EvOpen url :: List.map EvPrint (pre ++ [e]))%list,
     inl (StateParseError msg)).
Proof.
  intros Hc Hm Hpre He.
  rewrite (scan_branch_tree_list _ _ _ _ _ envs Hc Hm).
  now rewrite (scan_entries_stops w branch pre states e post _ envs Hpre He).
Qed.

Lemma scan_branch_rejected_entry_witness :
  StateTreeRepo.scan_branch {| Repo._url := "root" |} "base" ∅
    {| git_exec := fun _ _ => (0%Z, "");
       manifest := fun _ _ =>
         Decoded (Tree (PList [PDict [(PStr "api", PStr "u")];
                               PDict [(PStr "web", PDict [(PStr "branch", PStr "main")])]])) |}
  = ([EvGit "root" (checkout_cmd "base"); EvOpen "root";
      EvPrint (PDict [(PStr "api", PStr "u")]);
      EvPrint (PDict [(PStr "web", PDict [(PStr "branch", PStr "main")])])],
     inl (StateParseError ("State web missing mandatory option " ++ quoted "url"))).
Proof.
  apply (scan_branch_rejected_entry
           {| git_exec := fun _ _ => (0%Z, "");
              manifest := fun _ _ =>
                Decoded (Tree (PList [PDict [(PStr "api", PStr "u")];
                                      PDict [(PStr "web",
                                              PDict [(PStr "branch", PStr "main")])]])) |}
           "root" "base" "" [PDict [(PStr "api", PStr "u")]] []
           (PDict [(PStr "web", PDict [(PStr "branch", PStr "main")])])
           [plain_state "api" "u"]); reflexivity.
Defined.

(** ** Entries that share an object *)

Lemma resolve_own (fuel : nat) (objects : list object) (v : pyval) :
  StateTreeRepo.resolve fuel objects (Own v) = v.
Proof. now destruct fuel. Qed.

Lemma resolve_own_items (fuel : nat) (objects : list object) (items : Dict.items_t) :
  List.map (fun kx => (fst kx, StateTreeRepo.resolve fuel objects (snd kx))) (own_items items)
  = items.
Proof.
  induction items as [|[k x] items IH]; simpl; [reflexivity|].
  rewrite resolve_own. f_equal. exact IH.
Qed.

Lemma view_own (objects : list object) (items : Dict.items_t) :
  StateTreeRepo.view objects (own_items items) = items.
Proof. apply resolve_own_items. Qed.

Lemma own_length (items : Dict.items_t) :
  List.length (own_items items) = List.length items.
Proof. apply List.length_map. Qed.

Lemma pop_key_own (k : pyval) (items : Dict.items_t) :
  StateTreeRepo.pop_key k (own_items items) = own_items (Dict.remove k items).
Proof.
  induction items as [|[k' x] items IH]; simpl; [reflexivity|].
  destruct (Py.key_eqb k' k); simpl; [reflexivity | now rewrite IH].
Qed.

Lemma remove_shorter (k u : pyval) (d : Dict.items_t) :
  Dict.get k d = Some u -> (List.length (Dict.remove k d) < List.length d)%nat.
Proof.
  induction d as [|[k' x] d IH]; simpl; [discriminate|].
  destruct (Py.key_eqb k' k); simpl; [lia|]. intros H. apply IH in H. lia.
Qed.

Lemma key_eqb_sym (a b : pyval) : Py.key_eqb a b = Py.key_eqb b a.
Proof.
  destruct a, b; simpl; try reflexivity; [apply Z.eqb_sym | apply String.eqb_sym].
Qed.

Lemma get_fresh (k : pyval) (d : Dict.items_t) :
  existsb (Py.key_eqb k) (Dict.keys d) = false -> Dict.get k d = None.
Proof.
  induction d as [|[k' x] d IH]; simpl; [reflexivity|].
  intros H. apply orb_false_iff in H as [Hk H].
  rewrite key_eqb_sym, Hk. now apply IH.
Qed.

Lemma get_remove (k : pyval) (d : Dict.items_t) :
  distinct (Dict.keys d) = true -> Dict.get k (Dict.remove k d) = None.
Proof.
  induction d as [|[k' x] d IH]; simpl; [reflexivity|].
  intros H. apply andb_true_iff in H as [Hk H].
  destruct (Py.key_eqb k' k) eqn:He; simpl.
  - apply key_eqb_eq in He as ->. apply get_fresh. now apply negb_true_iff.
  - rewrite He. now apply IH.
Qed.

Lemma verify_options_ok (name u : pyval) (opts : Dict.items_t) :
  options_known opts = true ->
  Dict.get (PStr "url") opts = Some u ->
  (List.length (Dict.remove (PStr "url") opts) <= 1)%nat ->
  exists st,
    StateTreeRepo.verify_options name opts = (inr st, Dict.remove (PStr "url") opts).
Proof.
  intros Hk Hu Hlen. unfold StateTreeRepo.verify_options.
  rewrite (filter_unknown_nil _ Hk), Hu.
  assert (Hlt : (1 <? List.length (Dict.remove (PStr "url") opts))%nat = false)
    by (apply Nat.ltb_ge; lia).
  rewrite Hlt. eexists. reflexivity.
Qed.

Lemma verify_options_no_url (name : pyval) (opts : Dict.items_t) :
  options_known opts = true ->
  Dict.get (PStr "url") opts = None ->
  StateTreeRepo.verify_options name opts
  = (inl (StateParseError
            ("State " ++ Py.str name ++ " missing mandatory option " ++ quoted "url")),
     opts).
Proof.
  intros Hk Hu. unfold StateTreeRepo.verify_options.
  now rewrite (filter_unknown_nil _ Hk), Hu.
Qed.

Lemma verify_shared_options (objects : list object) (l l' : nat) (name : pyval)
  (opts : Dict.items_t) :
  objects !!! l = ([(name, Ref l')] : object) ->
  <[l := ([] : object)]> objects !!! l' = own_items opts ->
  StateTreeRepo.verify_shared objects (Ref l)
  = {| StateTreeRepo.shared_result := fst (StateTreeRepo.verify_options name opts);
       StateTreeRepo.objects_after :=
         if (List.length (snd (StateTreeRepo.verify_options name opts))
             <? List.length opts)%nat
         then <[l' := own_items (Dict.remove (PStr "url") opts)]> (<[l := ([] : object)]> objects)
         else <[l := ([] : object)]> objects;
       StateTreeRepo.shared_stdout :=
         [EvPrint (PDict (StateTreeRepo.view objects [(name, Ref l')]))] |}.
Proof.
  intros Hl Hl'. unfold StateTreeRepo.verify_shared, object in *. rewrite Hl.
  cbv beta iota zeta. rewrite Hl', view_own, pop_key_own, own_length.
  now destruct (StateTreeRepo.verify_options name opts).
Qed.

Lemma view_ref_own (objects : list object) (name : pyval) (l : nat) (opts : Dict.items_t) :
  objects <> [] ->
  objects !!! l = own_items opts ->
  StateTreeRepo.view objects [(name, Ref l)] = [(name, PDict opts)].
Proof.
  intros Hne Hl. unfold StateTreeRepo.view, object in *.
  destruct objects as [|o objects]; [contradiction|].
  cbn [List.map List.length StateTreeRepo.resolve fst snd]. unfold object in *.
  now rewrite Hl, resolve_own_items.
Qed.

Lemma scan_branch_graph w url branch out objects entries envs :
  git_exec w url (checkout_cmd branch) = (0%Z, out) ->
  manifest w url branch = Decoded (Graph objects entries) ->
  StateTreeRepo.scan_branch {| Repo._url := url |} branch envs w
  = ((EvGit url (checkout_cmd branch) :: EvOpen url
        :: fst (StateTreeRepo.scan_shared branch objects entries envs w))%list,
     match snd (StateTreeRepo.scan_shared branch objects entries envs w) with
     | inl (YAMLError exc) => inl (StateParseError (parse_error_msg branch exc))
     | inl FileNotFoundError => inr envs
     | r => r
     end).
Proof.
  intros Hc Hm. unfold StateTreeRepo.scan_branch, mbind, M_bind.
  erewrite bind_ok by (now apply checkout_ok; eauto).
  unfold try_except, StateTreeRepo.load_manifest, mbind, M_bind, bind, emit, ask.
  simpl. rewrite Hm. simpl.
  destruct (StateTreeRepo.scan_shared branch objects entries envs w) as [tr [e|envs']]; simpl;
    [|reflexivity].
  destruct e; simpl; rewrite ?app_nil_r; reflexivity.
Qed.

(** X20: a mapping of options that two entries share through an alias is
    used up by the first of them.  When the options have known and distinct
    keys, url among them, and at most one reference, so that each of the two
    entries validates when it is taken alone, the scan of the branch
    validates the first entry, which takes url out of the shared mapping,
    prints the second entry without url and raises StateParseError for the
    second entry, which misses url. *)
Theorem scan_shared_options_used_up
  (w : world) (url branch out name1 name2 : string) (opts : Dict.items_t) (u : pyval)
  (envs : gmap string (list State.t)) :
  git_exec w url (checkout_cmd branch) = (0%Z, out) ->
  manifest w url branch = Decoded (shared_options name1 name2 opts) ->
  options_known opts = true ->
  distinct (Dict.keys opts) = true ->
  Dict.get (PStr "url") opts = Some u ->
  (List.length (Dict.remove (PStr "url") opts) <= 1)%nat ->
  (exists st1 st2,
      StateTreeRepo.result (StateTreeRepo._verify_state (PDict [(PStr name1, PDict opts)]))
      = inr st1
      /\ StateTreeRepo.result (StateTreeRepo._verify_state (PDict [(PStr name2, PDict opts)]))
         = inr st2)
  /\ StateTreeRepo.scan_branch {| Repo._url := url |} branch envs w
     = ([EvGit url (checkout_cmd branch); EvOpen url;
         EvPrint (PDict [(PStr name1, PDict opts)]);
         EvPrint (PDict [(PStr name2, PDict (Dict.remove (PStr "url") opts))])],
        inl (StateParseError
               ("State " ++ name2 ++ " missing mandatory option " ++ quoted "url"))).
Proof.
  intros Hc Hm Hk Hd Hu Hlen.
  destruct (verify_options_ok (PStr name1) u opts Hk Hu Hlen) as [st1 H1].
  destruct (verify_options_ok (PStr name2) u opts Hk Hu Hlen) as [st2 H2].
  split.
  - exists st1, st2. rewrite !verify_state_options, H1, H2. split; reflexivity.
  - assert (Hsh : (List.length (Dict.remove (PStr "url") opts) <? List.length opts)%nat
                  = true)
      by (apply Nat.ltb_lt; eapply remove_shorter; eauto).
    rewrite (scan_branch_graph _ _ _ _ _ _ envs Hc Hm).
    cbn [StateTreeRepo.scan_shared]. unfold mbind, M_bind, bind, StateTreeRepo.emit_all.
    erewrite (verify_shared_options _ 0 2 (PStr name1) opts); [|reflexivity|reflexivity].
    rewrite H1. cbn [fst snd]. rewrite Hsh.
    erewrite (view_ref_own _ (PStr name1) 2 opts); [|discriminate|reflexivity].
    cbn [StateTreeRepo.shared_result StateTreeRepo.objects_after
         StateTreeRepo.shared_stdout].
    cbn [insert list_insert].
    erewrite (verify_shared_options _ 1 2 (PStr name2) (Dict.remove (PStr "url") opts));
      [|reflexivity|reflexivity].
    rewrite (verify_options_no_url (PStr name2) _ (known_remove _ _ Hk) (get_remove _ _ Hd)).
    erewrite (view_ref_own _ (PStr name2) 2 (Dict.remove (PStr "url") opts));
      [|discriminate|reflexivity].
    reflexivity.
Qed.

Lemma scan_shared_options_used_up_witness :
  StateTreeRepo.scan_branch {| Repo._url := "root" |} "base" ∅
    {| git_exec := fun _ _ => (0%Z, "");
       manifest := fun _ _ => Decoded (shared_options "web" "api" [(PStr "url", PStr "u")]) |}
  = ([EvGit "root" (checkout_cmd "base"); EvOpen "root";
      EvPrint (PDict [(PStr "web", PDict [(PStr "url", PStr "u")])]);
      EvPrint (PDict [(PStr "api", PDict [])])],
     inl (StateParseError ("State api missing mandatory option " ++ quoted "url"))).
Proof.
  apply (proj2 (scan_shared_options_used_up
                  {| git_exec := fun _ _ => (0%Z, "");
                     manifest := fun _ _ =>
                       Decoded (shared_options "web" "api" [(PStr "url", PStr "u")]) |}
                  "root" "base" "" "web" "api" [(PStr "url", PStr "u")] (PStr "u") ∅
                  eq_refl eq_refl eq_refl eq_refl eq_refl (le_S 0 0 (le_n 0)))).
Defined.

Lemma scan_branches_unchanged (w : world) (url : string) (branches : list string) :
  forall (envs envs' : gmap string (list State.t)) (tr : list event) (k : string),
    StateTreeRepo.scan_branches {| Repo._url := url |} branches envs w = (tr, inr envs') ->
    ~ In k branches \/ (forall v, manifest w url k <> Decoded v) ->
    envs' !! k = envs !! k.
Proof.
  induction branches as [|b rest IH]; intros envs envs' tr k H Hk.
  - simpl in H. now injection H as _ <-.
  - simpl in H. unfold mbind, M_bind in H.
    apply bind_inr in H as (tr1 & envs1 & tr2 & Hb & Hrest & _).
    apply scan_branch_inr in Hb as (Hother & Hsame & _).
    rewrite (IH _ _ _ k Hrest).
    + destruct (String.eqb_spec k b) as [->|Hne]; [|now apply Hother].
      destruct Hk as [Hk|Hk]; [exfalso; apply Hk; now left|].
      destruct Hsame as [->|[d Hd]]; [reflexivity | now destruct (Hk d)].
    + destruct Hk as [Hk|Hk]; [left | now right]. intros Hin. apply Hk. now right.
Qed.

(** X15: after a successful construction, every key of the environments
    mapping is one of the branches that the listing yielded, and the
    manifest of that branch exists and decodes. *)
Theorem environments_are_scanned_branches
  (w : world) (url : string) (tr tr1 : list event) (self : StateTreeRepo.t)
  (branches : list string) (k : string) (states : list State.t) :
  StateTreeRepo.__init__ (PStr url) w = (tr, inr self) ->
  Repo.branches {| Repo._url := url |} w = (tr1, inr branches) ->
  StateTreeRepo._environments self !! k = Some states ->
  In k branches /\ exists v, manifest w url k = Decoded v.
Proof.
  intros H Hb Hk.
  unfold StateTreeRepo.__init__, mbind, M_bind in H.
  apply bind_inr in H as (tr0 & r & tr' & Hr & H & _).
  apply Repo_init_inr in Hr as ->.
  unfold StateTreeRepo._scan, mbind, M_bind in H. simpl in H.
  apply bind_inr in H as (tr2 & branches' & tr3 & Hb' & H & _).
  rewrite Hb in Hb'. injection Hb' as _ <-.
  apply bind_inr in H as (tr4 & envs & tr5 & Hs & H & _).
  injection H as _ <-. simpl in Hk.
  pose proof (scan_branches_unchanged _ _ _ _ _ _ k Hs) as Hun.
  rewrite Hk, lookup_empty in Hun.
  destruct (in_dec string_dec k branches) as [Hin|Hnin];
    [|now discriminate Hun; left].
  split; [exact Hin|].
  destruct (manifest w url k) as [|msg|e|v]; [| | |eauto];
    discriminate Hun; right; discriminate.
Qed.

Lemma environments_are_scanned_branches_witness :
  In "base" ["base"] /\ exists v, manifest duplicate_world "root" "base" = Decoded v.
Proof.
  eapply (environments_are_scanned_branches duplicate_world "root" _ _ _ ["base"] "base"
            [plain_state "a" "z"; plain_state "a" "b"]); reflexivity.
Defined.

(** ** Exporting *)

Lemma touch_touch (k : string) (envs : gmap string (list State.t)) :
  StateTreeRepo.touch k (StateTreeRepo.touch k envs) = StateTreeRepo.touch k envs.
Proof.
  unfold StateTreeRepo.touch. destruct (envs !! k) eqn:H.
  - now rewrite H.
  - now rewrite lookup_insert_eq.
Qed.

(** X16: exporting is repeatable: a second export of the same environment,
    on the object that the first export left behind, runs the same commands
    and returns the same document, and leaves the object as it is. *)
Theorem yaml_twice (w : world) (self self' : StateTreeRepo.t) (environment : string)
  (tr : list event) (doc : node) :
  StateTreeRepo.yaml self environment w = (tr, inr (self', doc)) ->
  StateTreeRepo.yaml self' environment w = (tr, inr (self', doc)).
Proof.
  intros H. rewrite yaml_unfold in H. rewrite yaml_unfold.
  apply bind_inr in H as (tr1 & d & tr2 & He & H & ->).
  injection H as <- <- <-.
  assert (Hs : states_of
                 {| StateTreeRepo.repo := StateTreeRepo.repo self;
                    StateTreeRepo._environments :=
                      StateTreeRepo.touch environment (StateTreeRepo._environments self) |}
                 environment
               = states_of self environment).
  { unfold states_of. simpl. apply touch_lookup_total. }
  rewrite Hs. rewrite (bind_ok _ _ _ _ _ He). simpl. now rewrite touch_touch.
Qed.

Lemma yaml_twice_witness :
  StateTreeRepo.yaml (tree_of "base" scenario_states) "base" (constant_world 0 "ok")
  = ([EvGit "https://example/api.git" (clone_cmd "https://example/api.git");
      EvCleanup "https://example/api.git";
      EvGit "https://example/db.git" (clone_cmd "https://example/db.git");
      EvGit "https://example/db.git" ["git"; "tag"; "--list"; "v1.0"];
      EvCleanup "https://example/db.git"],
     inr (tree_of "base" scenario_states,
          MappingNode
            [(str_node "api", str_node "https://example/api.git");
             (str_node "db",
              MappingNode [(str_node "tag", str_node "v1.0");
                           (str_node "url", str_node "https://example/db.git")])])).
Proof.
  apply (yaml_twice (constant_world 0 "ok") (tree_of "base" scenario_states)).
  reflexivity.
Defined.

Lemma export_states_fails (w : world) (s : State.t) (states : list State.t) :
  forall acc e tr,
    In s states ->
    State.as_dict s true w = (tr, inl e) ->
    exists tr' e', StateTreeRepo.export_states states acc w = (tr', inl e').
Proof.
  induction states as [|h states IH]; intros acc e tr Hin Hs; [contradiction|].
  simpl. unfold mbind, M_bind.
  destruct (State.as_dict h true w) as [trh [eh|dh]] eqn:Hh.
  - rewrite (bind_err _ _ _ _ _ Hh). eauto.
  - rewrite (bind_ok _ _ _ _ _ Hh).
    destruct Hin as [->|Hin]; [congruence|].
    destruct (IH (Dict.update acc dh) e tr Hin Hs) as (tr' & e' & He).
    rewrite He. simpl. eauto.
Qed.

(** X17: an environment with a state that does not verify is not exported:
    when serializing some state of the environment raises (its clone fails,
    its reference is not found), the export raises and returns no
    document. *)
Theorem yaml_needs_every_state_verified
  (w : world) (self : StateTreeRepo.t) (environment : string) (s : State.t)
  (tr : list event) (e : exn) :
  In s (states_of self environment) ->
  State.as_dict s true w = (tr, inl e) ->
  exists e', exported self environment w = inl e'.
Proof.
  intros Hin Hs. unfold exported. rewrite yaml_unfold.
  assert (Hin' : In s (Py.sorted State.__lt__ (states_of self environment)))
    by now rewrite <- (sorted_Permutation State.__lt__ (states_of self environment)).
  destruct (export_states_fails w s _ [] e tr Hin' Hs) as (tr' & e' & He).
  rewrite (bind_err _ _ _ _ _ He). simpl. eauto.
Qed.

Lemma yaml_needs_every_state_verified_witness :
  exists e', exported (tree_of "base" scenario_states) "base" (constant_world 0 "") = inl e'.
Proof.
  apply (yaml_needs_every_state_verified (constant_world 0 "")
           (tree_of "base" scenario_states) "base"
           {| State.name := PStr "db"; State.url := PStr "https://example/db.git";
              State.ref := Some (GitTag (PStr "v1.0")) |}
           [EvGit "https://example/db.git" (clone_cmd "https://example/db.git");
            EvGit "https://example/db.git" ["git"; "tag"; "--list"; "v1.0"];
            EvCleanup "https://example/db.git"]
           (GitError "Tag v1.0 not found for repository https://example/db.git")).
  - right. left. reflexivity.
  - reflexivity.
Defined.

(** ** The message of a failed command *)

Lemma occurs_lstrip (c : ascii) (chars s : string) :
  occurs c s = false -> occurs c (Str.lstrip chars s) = false.
Proof.
  induction s as [|d s IH]; simpl; [reflexivity|].
  intros H. apply orb_false_iff in H as [Hd Hs].
  destruct (Str.in_chars chars d); [now apply IH|].
  simpl. now rewrite Hd, Hs.
Qed.

Lemma occurs_rstrip (c : ascii) (chars s : string) :
  occurs c s = false -> occurs c (Str.rstrip chars s) = false.
Proof.
  induction s as [|d s IH]; simpl; [reflexivity|].
  intros H. apply orb_false_iff in H as [Hd Hs]. specialize (IH Hs).
  destruct (Str.rstrip chars s) as [|d' s'].
  - destruct (Str.in_chars chars d); simpl; [reflexivity | now rewrite Hd].
  - simpl in *. now rewrite Hd, IH.
Qed.

Lemma occurs_replace_newline (s : string) :
  occurs Str.newline (Str.replace_newline s) = false.
Proof.
  induction s as [|d s IH]; simpl; [reflexivity|].
  destruct (Ascii.eqb d Str.newline) eqn:Hd; simpl; [exact IH|].
  now rewrite Hd, IH.
Qed.

(** X18: the output that a GitError quotes is one line: whatever the failed
    command printed, the text put in the message holds no newline, and it
    neither starts nor ends with a semicolon or a space. *)
Theorem failed_output_is_one_line (out : string) :
  let quoted_output := Str.strip "; " (Str.replace_newline out) in
  occurs Str.newline quoted_output = false
  /\ Str.lstrip "; " quoted_output = quoted_output
  /\ Str.rstrip "; " quoted_output = quoted_output.
Proof.
  cbn zeta. split; [|split].
  - unfold Str.strip. apply occurs_rstrip, occurs_lstrip, occurs_replace_newline.
  - unfold Str.strip.
    assert (Hl : forall s, Str.lstrip "; " (Str.lstrip "; " s) = Str.lstrip "; " s).
    { induction s as [|d s IH]; simpl; [reflexivity|].
      destruct (Str.in_chars "; " d) eqn:Hd; [exact IH|]. simpl. now rewrite Hd. }
    assert (Hr : forall s, Str.lstrip "; " s = s ->
                           Str.lstrip "; " (Str.rstrip "; " s) = Str.rstrip "; " s).
    { intros s Hs. destruct s as [|d s]; [reflexivity|].
      simpl in Hs. destruct (Str.in_chars "; " d) eqn:Hd.
      - exfalso. assert (Hlen : forall t, String.length (Str.lstrip "; " t) <= String.length t).
        { induction t as [|x t IHt]; simpl; [lia|].
          destruct (Str.in_chars "; " x); simpl; lia. }
        specialize (Hlen s). rewrite Hs in Hlen. simpl in Hlen. lia.
      - simpl. destruct (Str.rstrip "; " s); simpl; rewrite ?Hd; simpl; rewrite ?Hd;
          reflexivity. }
    apply Hr, Hl.
  - unfold Str.strip. generalize (Str.lstrip "; " (Str.replace_newline out)).
    induction s as [|d s IH]; simpl; [reflexivity|].
    destruct (Str.rstrip "; " s) as [|d' s'] eqn:Hs.
    + destruct (Str.in_chars "; " d) eqn:Hd; simpl; [reflexivity | now rewrite Hd].
    + simpl in IH. simpl. now rewrite IH.
Qed.

(** ** The order of verification *)

Lemma cloned_urls_app (tr1 tr2 : list event) :
  cloned_urls (tr1 ++ tr2) = (cloned_urls tr1 ++ cloned_urls tr2)%list.
Proof.
  induction tr1 as [|ev tr1 IH]; [reflexivity|].
  destruct ev as [u cmds| | |]; simpl; try exact IH.
  destruct (is_clone cmds); simpl; now rewrite IH.
Qed.

Lemma git_at_not_clone (w : world) (u sub : string) (cmds : list pyval) :
  String.eqb sub "clone" = false ->
  cloned_urls (fst (Repo.git_at u (PStr sub :: cmds) w)) = [].
Proof.
  intros Hs. unfold Repo.git_at. cbn [Repo.str_args].
  destruct (Repo.str_args cmds) as [args|]; [|reflexivity].
  unfold mbind, M_bind, bind, emit, ask. simpl.
  destruct (git_exec w u ("git" :: sub :: args)) as [code out].
  destruct (code =? 0)%Z; simpl; now rewrite Hs.
Qed.

Lemma bind_fst_not_clone {A B} (m : M A) (f : A -> M B) (w : world) :
  cloned_urls (fst (m w)) = [] ->
  (forall a, cloned_urls (fst (f a w)) = []) ->
  cloned_urls (fst (bind m f w)) = [].
Proof.
  intros Hm Hf. unfold bind. destruct (m w) as [tr [e|a]]; [exact Hm|].
  specialize (Hf a). destruct (f a w) as [tr' r]. simpl in *.
  now rewrite cloned_urls_app, Hm, Hf.
Qed.

Lemma try_except_not_clone {A} (m : M A) (handler : exn -> option (M A)) (w : world) :
  cloned_urls (fst (m w)) = [] ->
  (forall e h, handler e = Some h -> cloned_urls (fst (h w)) = []) ->
  cloned_urls (fst (try_except m handler w)) = [].
Proof.
  intros Hm Hh. unfold try_except. destruct (m w) as [tr [e|a]]; [|exact Hm].
  destruct (handler e) as [h|] eqn:He; [|exact Hm].
  specialize (Hh e h He). destruct (h w) as [tr' r]. simpl in *.
  now rewrite cloned_urls_app, Hm, Hh.
Qed.

Lemma verify_ref_not_clone (w : world) (s : State.t) (r : Repo.t) :
  cloned_urls (fst (State.verify_ref s r w)) = [].
Proof.
  unfold State.verify_ref. apply try_except_not_clone.
  - destruct (State.ref s) as [[n|n|n]|]; simpl; try reflexivity.
    + unfold Repo.validate_branch, Repo.git, mbind, M_bind.
      apply bind_fst_not_clone; [now apply git_at_not_clone|].
      intros a. now destruct (String.eqb a "").
    + unfold Repo.validate_commit, Repo.git, mbind, M_bind.
      apply bind_fst_not_clone; [now apply git_at_not_clone|].
      intros a. now destruct (String.eqb (Str.strip Str.whitespace a) "commit").
    + unfold Repo.validate_tag, Repo.git, mbind, M_bind.
      apply bind_fst_not_clone; [now apply git_at_not_clone|].
      intros a. now destruct (String.eqb a "").
  - intros e h He. destruct e; try discriminate. now injection He as <-.
Qed.

Lemma as_dict_clones_once (w : world) (s : State.t) (tr : list event) (d : Dict.items_t) :
  State.as_dict s true w = (tr, inr d) ->
  List.map PStr (cloned_urls tr) = [State.url s].
Proof.
  unfold State.as_dict, mbind, M_bind. intros H.
  apply bind_inr in H as (tr1 & [] & tr2 & H & Hret & ->).
  assert (tr2 = []) by (destruct (State.ref s); now injection Hret as <- _). subst tr2.
  rewrite app_nil_r.
  unfold Repo.with_repo, mbind, M_bind in H.
  apply bind_inr in H as (tr3 & r & tr4 & Hinit & Hbody & ->).
  unfold Repo.__init__ in Hinit. destruct (State.url s) as [| |u| |] eqn:Hu; try discriminate.
  unfold mbind, M_bind in Hinit.
  apply bind_inr in Hinit as (tr5 & out & tr6 & Hclone & Hret' & ->).
  injection Hret' as <- <-.
  unfold Repo.git_at in Hclone. cbn [Repo.str_args] in Hclone.
  unfold mbind, M_bind, bind, emit, ask in Hclone. simpl in Hclone.
  destruct (git_exec w u _) as [code o]. destruct (code =? 0)%Z; [|discriminate].
  injection Hclone as <- _.
  unfold finally, Repo.__exit__, emit in Hbody.
  pose proof (verify_ref_not_clone w s {| Repo._url := u |}) as Hnc.
  destruct (State.verify_ref s {| Repo._url := u |} w) as [trb rb].
  simpl in Hbody, Hnc. injection Hbody as <- _.
  rewrite !cloned_urls_app, Hnc. reflexivity.
Qed.

(** X19: a successful export verifies the states in the order sorted by
    canonical rendering, not in the order of the manifest: the clones that
    it runs are, in order, the clones of the URLs of the sorted states, one
    for every state, also for states that share a name or a URL. *)
Theorem yaml_clones_in_sorted_order
  (w : world) (self self' : StateTreeRepo.t) (environment : string)
  (tr : list event) (doc : node) :
  StateTreeRepo.yaml self environment w = (tr, inr (self', doc)) ->
  List.map PStr (cloned_urls tr)
  = List.map State.url (Py.sorted State.__lt__ (states_of self environment)).
Proof.
  intros H. rewrite yaml_unfold in H.
  apply bind_inr in H as (tr1 & d & tr2 & He & H & ->).
  injection H as <- _ _. rewrite app_nil_r.
  revert He. generalize (@nil (pyval * pyval)).
  generalize (Py.sorted State.__lt__ (states_of self environment)). clear.
  intros states. revert tr1 d.
  induction states as [|s states IH]; intros tr1 d acc H; simpl in H.
  - now injection H as <- _.
  - unfold mbind, M_bind in H.
    apply bind_inr in H as (tra & da & trb & Ha & Hb & ->).
    rewrite cloned_urls_app, List.map_app.
    rewrite (as_dict_clones_once _ _ _ _ Ha), (IH _ _ _ Hb). reflexivity.
Qed.

Lemma yaml_clones_in_sorted_order_witness :
  List.map PStr (cloned_urls
                   [EvGit "v" (clone_cmd "v"); EvCleanup "v";
                    EvGit "u" (clone_cmd "u"); EvCleanup "u"])
  = List.map State.url
      (Py.sorted State.__lt__
         (states_of (tree_of "base" [plain_state "db" "u"; plain_state "db #2" "v"]) "base")).
Proof.
  eapply (yaml_clones_in_sorted_order (constant_world 0 "ok")
            (tree_of "base" [plain_state "db" "u"; plain_state "db #2" "v"])).
  reflexivity.
Defined.
